(** * Verification of [parse_html] of src/scraper.py

    The extraction heuristic of the scraper, embedded over the document
    tree that [BeautifulSoup(html, "html.parser")] hands to it.  Python
    strings are Rocq strings (characters are code points below 256), a
    [dict] is an association list in insertion order, the [for] loops
    thread [results] and a possible exception, and the calls to [logger]
    thread the list of emitted log records. *)

From Stdlib Require Import Ascii String.
From stdpp Require Import base list strings pretty.

(** ** Python strings *)

(** [str.isspace] on one character (code points below 256). *)
Definition isspace (c : ascii) : bool :=
  let n := nat_of_ascii c in
  ((9 <=? n) && (n <=? 13) || (28 <=? n) && (n <=? 32)
   || (n =? 133) || (n =? 160))%nat.

Fixpoint lstrip (s : string) : string :=
  match s with
  | String c s' => if isspace c then lstrip s' else s
  | EmptyString => EmptyString
  end.

Definition rstrip (s : string) : string :=
  String.rev (lstrip (String.rev s)).

(** [s.strip()] *)
Definition strip (s : string) : string := rstrip (lstrip s).

(** Truth value of a string: [if text:]. *)
Definition str_bool (s : string) : bool :=
  match s with
  | EmptyString => false
  | String _ _ => true
  end.

(** [sep.join(l)] *)
Fixpoint join (sep : string) (l : list string) : string :=
  match l with
  | [] => ""
  | [x] => x
  | x :: l' => x +:+ sep +:+ join sep l'
  end.

(** ** The document tree *)

#[local] Set Warnings "-register-all".

(** What the parser builds: text, comments (they stand for every string
    that [get_text] leaves out: comments, declarations, the inside of a
    script) and tags with their contents.  The [BeautifulSoup] object itself
    is the tag named [[document]]. *)
Inductive node : Type :=
| NavigableString (s : string)
| Comment (s : string)
| Tag (name : string) (contents : list node).

(** [tag.descendants]: every node below the tag, in document order. *)
Fixpoint descendants (n : node) : list node :=
  match n with
  | Tag _ contents => contents ≫= (fun c => c :: descendants c)
  | _ => []
  end.

Definition has_name (name : string) (n : node) : bool :=
  match n with
  | Tag nm _ => bool_decide (nm = name)
  | _ => false
  end.

(** [tag.find_all(name)] *)
Definition find_all (t : node) (name : string) : list node :=
  filter (fun d => has_name name d) (descendants t).

(** [tag.find(name)]: the first result of [find_all], or [None]. *)
Definition find (t : node) (name : string) : option node :=
  head (find_all t name).

(** The strings [_all_strings(strip=True)] yields: each text node below the
    tag, stripped, those that become empty dropped. *)
Definition stripped (d : node) : option string :=
  match d with
  | NavigableString s =>
      let s' := strip s in if str_bool s' then Some s' else None
  | _ => None
  end.

Definition stripped_strings (t : node) : list string :=
  omap stripped (descendants t).

(** [tag.get_text(sep, strip=True)] *)
Definition get_text (sep : string) (t : node) : string :=
  join sep (stripped_strings t).

(** ** Dictionaries, exceptions, logging *)

(** A [dict] with string keys and values, in insertion order. *)
Definition dict : Type := list (string * string).

(** [d[k] = v]: an existing key keeps its place and takes the new value, a
    new key goes last. *)
Fixpoint dict_set (k v : string) (d : dict) : dict :=
  match d with
  | [] => [(k, v)]
  | (k', v') :: d' =>
      if decide (k' = k) then (k, v) :: d' else (k', v') :: dict_set k v d'
  end.

(** [d.get(k)] *)
Fixpoint dict_get (k : string) (d : dict) : option string :=
  match d with
  | [] => None
  | (k', v') :: d' => if decide (k' = k) then Some v' else dict_get k d'
  end.

Definition keys (d : dict) : list string := d.*1.

Inductive exn : Type := IndexError.

Inductive outcome (A : Type) : Type :=
| Return (a : A)
| Raise (e : exn).
Arguments Return {A} a.
Arguments Raise {A} e.

(** An exception leaves the rest of the block unexecuted. *)
Global Instance outcome_bind : MBind outcome := fun A B f m =>
  match m with
  | Return a => f a
  | Raise e => Raise e
  end.

(** [l[i]] *)
Definition index {A} (l : list A) (i : nat) : outcome A :=
  match l !! i with
  | Some x => Return x
  | None => Raise IndexError
  end.

(** [{key(i): value(i) for i in idx}] *)
Fixpoint dict_comp (kv : nat -> outcome (string * string)) (idx : list nat)
    (d : dict) : outcome dict :=
  match idx with
  | [] => Return d
  | i :: idx' => p ← kv i; dict_comp kv idx' (dict_set p.1 p.2 d)
  end.

(** [for x in l: s = body(x, s)] *)
Fixpoint for_each {A S} (body : A -> S -> outcome S) (l : list A) (s : S)
    : outcome S :=
  match l with
  | [] => Return s
  | x :: l' => s' ← body x s; for_each body l' s'
  end.

(** The four calls to [logger] of [parse_html], with their arguments. *)
Inductive log_record : Type :=
| info_found_table
| info_parsing_li (n : nat)
| info_parsing_p (n : nat)
| warning_no_structures.

Definition logger : Type := list log_record.

Definition log (r : log_record) (lg : logger) : logger := lg ++ [r].

(** ** [parse_html] *)

Definition record : Type := dict.

(** Lines 66-70: the row built from [headers] and [texts]. *)
Definition make_row (headers texts : list string) : outcome record :=
  if negb (bool_decide (headers = [])) && (length headers =? length texts)%nat
  then dict_comp (fun i => h ← index headers i; t ← index texts i;
                           Return (h, t))
                 (seq 0 (length texts)) []
  else dict_comp (fun i => t ← index texts i;
                           Return ("col_" +:+ pretty i, t))
                 (seq 0 (length texts)) [].

(** Lines 62-71: the body of the loop over the rows. *)
Definition tr_body (headers : list string) (tr : node)
    (results : list record) : outcome (list record) :=
  let cells := find_all tr "td" in
  match cells with
  | [] => Return results
  | _ :: _ =>
      let texts := map (get_text "") cells in
      row ← make_row headers texts;
      Return (results ++ [row])
  end.

(** Lines 59-72 *)
Definition parse_table (table : node) (results : list record)
    : outcome (list record) :=
  let headers := map (get_text "") (find_all table "th") in
  for_each (tr_body headers) (find_all table "tr") results.

(** Lines 79-81: the body of the loop over the list items. *)
Definition li_body (li : node) (results : list record)
    : outcome (list record) :=
  let text := get_text " " li in
  if str_bool text then Return (results ++ [[("text", text)]])
  else Return results.

(** Line 85 *)
Definition paragraph_texts (soup : node) : list string :=
  omap (fun p => let t := get_text "" p in
                 if str_bool t then Some t else None)
       (find_all soup "p").

(** Line 89 *)
Definition p_body (p : string) (results : list record)
    : outcome (list record) :=
  Return (results ++ [[("text", p)]]).

(** Lines 54-93, from the tree [soup] on; [lg] is what the logger holds
    when the call starts.  A tag is true whatever its contents ([if table:]),
    a list of results is true when it is not empty ([if lis:], [if ps:]). *)
Definition parse_html (soup : node) (lg : logger)
    : outcome (list record) * logger :=
  let results : list record := [] in
  match find soup "table" with
  | Some table =>
      let lg := log info_found_table lg in
      (parse_table table results, lg)
  | None =>
      let lis := find_all soup "li" in
      match lis with
      | _ :: _ =>
          let lg := log (info_parsing_li (length lis)) lg in
          (for_each li_body lis results, lg)
      | [] =>
          let ps := paragraph_texts soup in
          match ps with
          | _ :: _ =>
              let lg := log (info_parsing_p (length ps)) lg in
              (for_each p_body ps results, lg)
          | [] =>
              let lg := log warning_no_structures lg in
              (Return results, lg)
          end
      end
  end.

(** ** What the loops compute

    Closed forms of the loops of [parse_html], proved equal to them below. *)

Definition dict_add (d : dict) (p : string * string) : dict :=
  dict_set p.1 p.2 d.

(** [dict(pairs)]: the pairs inserted one after the other. *)
Definition from_pairs (ps : list (string * string)) : dict :=
  foldl dict_add [] ps.

(** The row with positional keys [col_0], [col_1], ... *)
Definition positional (texts : list string) : record :=
  imap (fun i t => ("col_" +:+ pretty i, t)) texts.

(** What one row contributes: nothing without data cells, else one record. *)
Definition row_record (headers : list string) (tr : node) : option record :=
  let texts := get_text "" <$> find_all tr "td" in
  match texts with
  | [] => None
  | _ :: _ =>
      Some (if decide (headers <> [] /\ length headers = length texts)
            then from_pairs (zip headers texts)
            else positional texts)
  end.

Definition text_record (text : string) : record := [("text", text)].

Definition li_record (li : node) : option record :=
  let text := get_text " " li in
  if str_bool text then Some (text_record text) else None.

(** The elements the taken branch loops over, and what each of them gives. *)
Definition sources (soup : node) : list node :=
  match find soup "table" with
  | Some table => find_all table "tr"
  | None =>
      match find_all soup "li" with
      | _ :: _ => find_all soup "li"
      | [] => find_all soup "p"
      end
  end.

Definition record_of (soup : node) (e : node) : option record :=
  match find soup "table" with
  | Some table => row_record (get_text "" <$> find_all table "th") e
  | None =>
      match find_all soup "li" with
      | _ :: _ => li_record e
      | [] => let t := get_text "" e in
              if str_bool t then Some (text_record t) else None
      end
  end.

(** ParagraphExtractor as the specification words it: the algorithm of the
    list items (space-joined text, empty ones skipped), run over the [p]
    elements. *)
Definition paragraphs_as_list_items (soup : node) : outcome (list record) :=
  for_each li_body (find_all soup "p") [].

(** ** Sample documents *)

Definition document (contents : list node) : node := Tag "[document]" contents.

Definition td (s : string) : node := Tag "td" [NavigableString s].
Definition th (s : string) : node := Tag "th" [NavigableString s].
Definition li (s : string) : node := Tag "li" [NavigableString s].

Definition sample_rows : node :=
  Tag "table" [
    Tag "tr" [th "Name"; th " Country "];
    Tag "tr" [td " Alice "; td "FR"];
    Tag "tr" [td "Bob"; td "DE"; td "x"];
    Tag "tr" []].

Definition sample_table : node :=
  document [Tag "div" [sample_rows]; Tag "ul" [li "ignored"]].

Definition sample_list : node :=
  document [Tag "ul" [li "A"; li "  "; li "B"; li "A"];
            Tag "p" [NavigableString "ignored"]].

Definition sample_empty_items : node :=
  document [Tag "ul" [li "  "; Tag "li" []];
            Tag "p" [NavigableString "a paragraph"]].

Definition sample_nested : node :=
  Tag "table" [
    Tag "tr" [th "Name"; th "Aliases"];
    Tag "tr" [td "Alice";
              Tag "td" [Tag "table" [Tag "tr" [th "Alias"];
                                     Tag "tr" [td "Al"]]]];
    Tag "tr" [td "Bob"]].

Definition sample_outer_item : node :=
  Tag "li" [NavigableString "Acme Ltd";
            Tag "ul" [li "Acme Holdings"; li " "]].

Definition sample_nested_list : node :=
  document [Tag "ul" [sample_outer_item]].

Definition sample_paragraphs : node :=
  document [Tag "p" [NavigableString "Jane "; Tag "b" [NavigableString "Doe"]];
            Tag "p" [NavigableString "  "]].

(** ** Stripped texts and regular tables *)

(** Whitespace only. *)
Fixpoint all_space (s : string) : bool :=
  match s with
  | EmptyString => true
  | String c s' => isspace c && all_space s'
  end.

(** The string does not start with whitespace. *)
Definition no_leading_space (s : string) : Prop :=
  match s with
  | EmptyString => True
  | String c _ => isspace c = false
  end.

(** A string as [_all_strings(strip=True)] yields it: not empty, no
    whitespace at either end. *)
Definition piece (p : string) : Prop :=
  p <> "" /\ no_leading_space p /\ no_leading_space (String.rev p).

(** A table with one row of header cells and rows of data cells, each cell
    holding one string. *)
Definition table_of (hs : list string) (rows : list (list string)) : node :=
  Tag "table" (Tag "tr" (th <$> hs) ::
               ((fun cells => Tag "tr" (td <$> cells)) <$> rows)).

(** ** The text of a cell in the words of the specification *)



(** ** Further sample documents *)

Definition sample_people : node :=
  Tag "table" [
    Tag "tr" [th "Name"; th "Country"];
    Tag "tr" [Tag "td" [NavigableString "Jane "; Tag "b" [NavigableString "Doe"]];
              td " FR "];
    Tag "tr" [td "Bob"; td "DE"; td "x"];
    Tag "tr" []].

Definition sample_inner_table : node :=
  Tag "table" [Tag "tr" [th "N"]; Tag "tr" [td "n"]].

Definition sample_nested_middle : node :=
  Tag "table" [Tag "tr" [th "A"; Tag "td" [sample_inner_table]; th "B"]].

(** ** Line 54: from the markup to the tree *)

Definition is_alpha (c : ascii) : bool :=
  let n := nat_of_ascii c in
  ((65 <=? n) && (n <=? 90) || (97 <=? n) && (n <=? 122))%nat.

Definition is_name_char (c : ascii) : bool :=
  let n := nat_of_ascii c in
  is_alpha c
  || ((48 <=? n) && (n <=? 57) || (n =? 45) || (n =? 46) || (n =? 95))%nat.

Definition lower (c : ascii) : ascii :=
  let n := nat_of_ascii c in
  if ((65 <=? n) && (n <=? 90))%nat then ascii_of_nat (n + 32) else c.

(** The name at the start of [s], in lower case, and what follows it. *)
Fixpoint scan_name (s : string) : string * string :=
  match s with
  | String c s' =>
      if is_name_char c
      then let (name, rest) := scan_name s' in (String (lower c) name, rest)
      else (EmptyString, s)
  | EmptyString => (EmptyString, EmptyString)
  end.

Fixpoint remove_prefix (p s : string) : option string :=
  match p, s with
  | EmptyString, _ => Some s
  | String a p', String b s' =>
      if decide (a = b) then remove_prefix p' s' else None
  | String _ _, EmptyString => None
  end.

Definition known_sections : list string :=
  ["temp"; "cdata"; "ignore"; "include"; "rcdata"; "if"; "else"; "endif"].

(** The markup starts with a marked section [<![name ...] whose name the
    parser does not know: [parse_marked_section] of [html.parser] then
    raises an [AssertionError], which [bs4] turns into
    [ParserRejectedMarkup]. *)
Definition unknown_marked_section (html : string) : bool :=
  match remove_prefix "<![" html with
  | Some (String c _ as rest) =>
      is_alpha c &&
      (let (name, after) := scan_name rest in
       negb (bool_decide (lstrip after = "")) &&
       negb (bool_decide (name ∈ known_sections)))
  | _ => false
  end.

(** [BeautifulSoup(html, "html.parser")]: the tree, or [None] when the
    parser rejects the markup.  [rest] stands for the parser on the markup
    this model does not look into; it can reject markup as well. *)
Definition BeautifulSoup (rest : string -> option node) (html : string)
    : option node :=
  if unknown_marked_section html then None else rest html.

(** What a call outside of the program's own code can raise:
    [requests.RequestException] with its subclasses, or anything else
    ([ValueError], [OSError], [UnicodeEncodeError], ...). *)
Inductive raised : Type :=
| RequestException (what : string)
| other_exception (what : string).

Inductive exception : Type :=
| ParserRejectedMarkup
| loop_error (e : exn)
| SystemExit (code : Z)
| uncaught (e : raised).

Inductive ended (A : Type) : Type :=
| finished (a : A)
| failed (e : exception).
Arguments finished {A} a.
Arguments failed {A} e.

(** Lines 46-93, from the markup on. *)
Definition parse_html_markup (rest : string -> option node) (html : string)
    (lg : logger) : ended (list record) * logger :=
  match BeautifulSoup rest html with
  | None => (failed ParserRejectedMarkup, lg)
  | Some soup =>
      let (res, lg') := parse_html soup lg in
      (match res with
       | Return rs => finished rs
       | Raise e => failed (loop_error e)
       end, lg')
  end.

(** ** [fetch], [save_json] and [main] *)

Record response : Type := { status_code : Z; text : string }.

(** The result of a call outside of the program's own code. *)
Inductive call (A : Type) : Type :=
| returns (a : A)
| raises (e : raised).
Arguments returns {A} a.
Arguments raises {A} e.

(** What the program calls outside of its own code, each call returning or
    raising: the HTTP request, the HTML parser (on the markup the model of
    line 54 does not look into; [None] when it rejects the markup), the
    JSON serializer writing into the open file, and the file system. *)
Record environment : Type := {
  requests_get : string -> Z -> call response;
  html_parser : string -> option node;
  json_dump : list record -> call string;
  parent : string -> string;
  mkdir : string -> call unit;
  open_w : string -> call unit
}.

(** The arguments [parse_args] returns. *)
Record Namespace : Type := { url : string; output : string; timeout : Z }.

(** What a run logs and does to the file system, in order.  [opened]
    truncates the file; what the file holds afterwards is known only when
    [wrote] follows. *)
Inductive action : Type :=
| info_fetching (url : string)
| error_failed_to_fetch
| from_parse_html (r : log_record)
| made_directories (dir : string)
| opened (path : string)
| wrote (path content : string)
| info_saved (n : nat) (path : string).

(** [resp.raise_for_status()] raises an [HTTPError], which is a
    [RequestException], for the status codes 400 to 599. *)
Definition bad_status (resp : response) : bool :=
  ((400 <=? status_code resp) && (status_code resp <? 600))%Z.

(** Lines 35-43 *)
Definition fetch (env : environment) (url : string) (timeout : Z)
    : call string * list action :=
  let acts := [info_fetching url] in
  match requests_get env url timeout with
  | raises e => (raises e, acts)
  | returns resp =>
      if bad_status resp then (raises (RequestException "HTTPError"), acts)
      else (returns (text resp), acts)
  end.

(** Lines 96-100 *)
Definition save_json (env : environment) (data : list record)
    (out_path : string) : call unit * list action :=
  match mkdir env (parent env out_path) with
  | raises e => (raises e, [])
  | returns _ =>
      let acts := [made_directories (parent env out_path)] in
      match open_w env out_path with
      | raises e => (raises e, acts)
      | returns _ =>
          let acts := acts ++ [opened out_path] in
          match json_dump env data with
          | raises e => (raises e, acts)
          | returns content =>
              (returns tt,
               acts ++ [wrote out_path content;
                        info_saved (length data) out_path])
          end
      end
  end.

(** Lines 110-117, after the arguments are parsed. *)
Definition main (env : environment) (args : Namespace)
    : ended unit * list action :=
  match fetch env (url args) (timeout args) with
  | (raises (RequestException _), acts) =>
      (failed (SystemExit 1), acts ++ [error_failed_to_fetch])
  | (raises e, acts) => (failed (uncaught e), acts)
  | (returns html, acts) =>
      let (res, lg) := parse_html_markup (html_parser env) html [] in
      let acts := acts ++ (from_parse_html <$> lg) in
      match res with
      | failed e => (failed e, acts)
      | finished data =>
          match save_json env data (output args) with
          | (returns _, acts') => (finished tt, acts ++ acts')
          | (raises e, acts') => (failed (uncaught e), acts ++ acts')
          end
      end
  end.


Definition sample_environment : environment := {|
  requests_get u t :=
    if (t <=? 0)%Z then raises (other_exception "ValueError")
    else if String.eqb u "https://example.com/sanctions"
    then returns {| status_code := 200;
                    text := "<ul><li>A</li><li>B</li></ul>" |}
    else if String.eqb u "https://example.com/missing"
    then returns {| status_code := 404; text := "not found" |}
    else if String.eqb u "https://example.com/odd"
    then returns {| status_code := 200; text := "<![foo bar]>" |}
    else raises (RequestException "ConnectionError");
  html_parser html :=
    if String.eqb html "<ul><li>A</li><li>B</li></ul>"
    then Some (document [Tag "ul" [li "A"; li "B"]])
    else Some (document []);
  json_dump data := returns (pretty (length data));
  parent p := "data";
  mkdir d := returns tt;
  open_w p := returns tt
|}.

Definition sample_args (u : string) (t : Z) : Namespace :=
  {| url := u; output := "data/sanctions.json"; timeout := t |}.

(** ** The tree *)

Lemma node_tree_ind (P : node -> Prop) :
  (forall s, P (NavigableString s)) ->
  (forall s, P (Comment s)) ->
  (forall name contents, Forall P contents -> P (Tag name contents)) ->
  forall n, P n.
Proof.
  intros Hs Hc Ht.
  fix IH 1. intros [s|s|name contents].
  - apply Hs.
  - apply Hc.
  - apply Ht. induction contents as [|c cs IHcs]; constructor.
    + apply IH.
    + apply IHcs.
Qed.

(** The descendants of a descendant are a block of the descendants. *)
Lemma descendants_block t d :
  d ∈ descendants t ->
  exists pre post, descendants t = pre ++ d :: descendants d ++ post.
Proof.
  induction t as [s|s|name contents IH] using node_tree_ind; simpl.
  - intros H. inversion H.
  - intros H. inversion H.
  - induction IH as [|c cs Hc _ IHcs].
    + intros H. inversion H.
    + rewrite bind_cons, elem_of_app, elem_of_cons.
      intros [[->|Hin]|Hin].
      * exists [], (cs ≫= (fun c => c :: descendants c)). reflexivity.
      * destruct (Hc Hin) as (pre & post & Heq).
        exists (c :: pre), (post ++ cs ≫= (fun c => c :: descendants c)).
        rewrite Heq, <- !app_comm_cons, <- app_assoc, <- app_comm_cons.
        rewrite <- app_assoc. reflexivity.
      * destruct (IHcs Hin) as (pre & post & Heq).
        exists (c :: descendants c ++ pre), post.
        rewrite Heq, <- !app_comm_cons, <- app_assoc. reflexivity.
Qed.

Lemma descendants_sublist t d :
  d ∈ descendants t -> descendants d `sublist_of` descendants t.
Proof.
  intros Hd. destruct (descendants_block _ _ Hd) as (pre & post & ->).
  apply sublist_inserts_l, sublist_cons, sublist_inserts_r. reflexivity.
Qed.

(** What [find_all] and [find] return. *)
Lemma elem_of_find_all t name d :
  d ∈ find_all t name <-> d ∈ descendants t /\ has_name name d.
Proof. unfold find_all. rewrite list_elem_of_filter. tauto. Qed.

Lemma find_all_sublist t name : find_all t name `sublist_of` descendants t.
Proof. apply sublist_filter. Qed.

Lemma find_Some t name d :
  find t name = Some d <->
  exists pre post, descendants t = pre ++ d :: post /\ has_name name d /\
                   Forall (fun x => ~ has_name name x) pre.
Proof.
  unfold find, find_all. split.
  - induction (descendants t) as [|x l IH]; simpl; [discriminate|].
    rewrite filter_cons. destruct (decide (has_name name x)) as [Hx|Hx]; simpl.
    + intros [= ->]. exists [], l. auto.
    + intros H. destruct (IH H) as (pre & post & -> & Hd & Hpre).
      exists (x :: pre), post. auto.
  - intros (pre & post & -> & Hd & Hpre).
    rewrite filter_app, filter_cons_True by done.
    replace (filter _ pre) with (@nil node); [reflexivity|].
    symmetry. induction Hpre as [|x l Hx _ IH]; [reflexivity|].
    rewrite filter_cons_False by done. exact IH.
Qed.

Lemma find_all_nonempty soup name :
  find_all soup name <> [] <->
  exists d, d ∈ descendants soup /\ has_name name d.
Proof.
  split.
  - destruct (find_all soup name) as [|d l] eqn:H; [congruence|]. intros _.
    exists d. apply elem_of_find_all. rewrite H. left.
  - intros (d & Hd). apply elem_of_find_all in Hd.
    intros Hnil. rewrite Hnil in Hd. inversion Hd.
Qed.

Lemma has_name_unique a b n : has_name a n -> has_name b n -> a = b.
Proof.
  destruct n as [s|s|nm contents]; simpl; try contradiction.
  intros Ha Hb. apply bool_decide_unpack in Ha, Hb. congruence.
Qed.

(** [find_all] over the block of a descendant with another name. *)
Lemma find_all_block t d name dname pre post :
  descendants t = pre ++ d :: descendants d ++ post ->
  has_name dname d -> dname <> name ->
  find_all t name =
    filter (fun x => has_name name x) pre ++ find_all d name ++
    filter (fun x => has_name name x) post.
Proof.
  intros Hdesc Hname Hne.
  unfold find_all. rewrite Hdesc, filter_app, filter_cons_False, filter_app.
  - reflexivity.
  - intros H. apply Hne. exact (has_name_unique _ _ _ Hname H).
Qed.

(** ** Strings and texts *)

Lemma str_bool_true s : str_bool s = true <-> s <> "".
Proof. destruct s; simpl; split; congruence. Qed.

Lemma str_app_assoc (a b c : string) : (a +:+ b) +:+ c = a +:+ b +:+ c.
Proof.
  induction a as [|x a IH]; [reflexivity|].
  change (String x ((a +:+ b) +:+ c) = String x (a +:+ b +:+ c)).
  rewrite IH. reflexivity.
Qed.

Lemma str_app_nil_r (a : string) : a +:+ "" = a.
Proof.
  induction a as [|x a IH]; [reflexivity|].
  change (String x (a +:+ "") = String x a). rewrite IH. reflexivity.
Qed.

Lemma str_app_nonempty (a b c : string) : b <> "" -> a +:+ b +:+ c <> "".
Proof.
  intros Hb H. destruct a; [|discriminate H].
  destruct b; [congruence|discriminate H].
Qed.

Lemma join_app sep l1 l2 :
  l1 <> [] -> l2 <> [] ->
  join sep (l1 ++ l2) = join sep l1 +:+ sep +:+ join sep l2.
Proof.
  intros H1 H2. induction l1 as [|x l1 IH]; [congruence|].
  destruct l1 as [|y l1].
  - destruct l2; [congruence|]. reflexivity.
  - change (join sep ((x :: y :: l1) ++ l2))
      with (x +:+ sep +:+ join sep ((y :: l1) ++ l2)).
    rewrite IH by discriminate.
    change (join sep (x :: y :: l1)) with (x +:+ sep +:+ join sep (y :: l1)).
    rewrite !str_app_assoc. reflexivity.
Qed.

(** The joined text of a block of strings occurs in the joined text of the
    whole. *)
Lemma join_infix sep l1 l2 l3 :
  exists before after,
    join sep (l1 ++ l2 ++ l3) = before +:+ join sep l2 +:+ after.
Proof.
  destruct l2 as [|x2 l2].
  { exists (join sep (l1 ++ l3)), "". simpl. rewrite str_app_nil_r. reflexivity. }
  destruct l1 as [|x1 l1], l3 as [|x3 l3].
  - exists "", "". rewrite !app_nil_r, str_app_nil_r. reflexivity.
  - exists "", (sep +:+ join sep (x3 :: l3)).
    rewrite app_nil_l, join_app by discriminate. reflexivity.
  - exists (join sep (x1 :: l1) +:+ sep), "".
    rewrite app_nil_r, join_app by discriminate.
    rewrite str_app_nil_r, str_app_assoc. reflexivity.
  - exists (join sep (x1 :: l1) +:+ sep), (sep +:+ join sep (x3 :: l3)).
    rewrite join_app by discriminate.
    rewrite (join_app _ (x2 :: l2)) by discriminate.
    rewrite !str_app_assoc. reflexivity.
Qed.

(** The text of a cell that holds one string is that string, stripped. *)
Lemma get_text_single sep name s :
  get_text sep (Tag name [NavigableString s]) = strip s.
Proof.
  unfold get_text, stripped_strings. simpl.
  destruct (strip s); reflexivity.
Qed.

Lemma get_text_infix sep t d :
  d ∈ descendants t ->
  exists before after, get_text sep t = before +:+ get_text sep d +:+ after.
Proof.
  intros Hd. destruct d as [s|s|name contents].
  1,2: exists (get_text sep t), ""; symmetry; apply str_app_nil_r.
  destruct (descendants_block _ _ Hd) as (pre & post & Hdesc).
  unfold get_text, stripped_strings. rewrite Hdesc.
  rewrite omap_app.
  change (omap stripped (Tag name contents :: ?l)) with (omap stripped l).
  rewrite omap_app. apply join_infix.
Qed.

(** ** Exceptions and loops *)

(** One step of [omap] on a list that starts with [x]. *)
Ltac omap_step f x l :=
  change (omap f (x :: l))
    with (match f x with Some y => y :: omap f l | None => omap f l end).

Lemma bind_Return {A B} (f : A -> outcome B) a : Return a ≫= f = f a.
Proof. reflexivity. Qed.

(** A loop whose body appends at most one element per iteration never
    raises and appends what each iteration gives, in the order of the
    iterations. *)
Lemma for_each_emit {A R} (body : A -> list R -> outcome (list R))
    (f : A -> option R) (l : list A) :
  (forall x res, x ∈ l -> body x res = Return (res ++ option_list (f x))) ->
  forall res, for_each body l res = Return (res ++ omap f l).
Proof.
  induction l as [|x l IH]; intros Hbody res; simpl.
  - rewrite app_nil_r. reflexivity.
  - rewrite Hbody by left. rewrite bind_Return.
    rewrite IH by (intros; apply Hbody; right; assumption).
    rewrite <- app_assoc. destruct (f x); reflexivity.
Qed.

Lemma omap_total {A B} (f : A -> B) (l : list A) :
  omap (fun x => Some (f x)) l = f <$> l.
Proof.
  induction l as [|x l IH]; [reflexivity|].
  rewrite fmap_cons, <- IH. reflexivity.
Qed.

Lemma omap_nonempty {A B} (g : A -> string) (h : string -> B) (l : list A) :
  omap (fun x => let t := g x in if str_bool t then Some (h t) else None) l =
  h <$> filter (fun t => t <> "") (g <$> l).
Proof.
  induction l as [|x l IH]; [reflexivity|].
  rewrite fmap_cons, filter_cons.
  match goal with |- context [omap ?f (x :: l)] => omap_step f x l end.
  rewrite IH. cbv zeta.
  destruct (str_bool (g x)) eqn:Hb.
  - apply str_bool_true in Hb. rewrite decide_True by assumption.
    rewrite fmap_cons. reflexivity.
  - rewrite decide_False; [reflexivity|].
    intros Hne. apply str_bool_true in Hne. congruence.
Qed.

(** [omap] keeps one result for each element that gives one, in order. *)
Lemma omap_Forall2 {A B} (f : A -> option B) (l : list A) :
  Forall2 (fun x y => f x = Some y)
          (filter (fun x => is_Some (f x)) l) (omap f l).
Proof.
  induction l as [|x l IH]; [constructor|].
  rewrite filter_cons.
  omap_step f x l.
  destruct (f x) as [y|] eqn:Hx.
  - rewrite decide_True by eauto. constructor; assumption.
  - rewrite decide_False; [exact IH|]. intros [y Hy]. discriminate.
Qed.

Lemma omap_cons_Some {A B} (f : A -> option B) x y l :
  f x = Some y -> omap f (x :: l) = y :: omap f l.
Proof.
  intros H.
  omap_step f x l.
  rewrite H. reflexivity.
Qed.

Lemma filter_all_empty (texts : list string) :
  Forall (fun text => text = "") texts ->
  filter (fun text => text <> "") texts = [].
Proof.
  induction 1 as [|t ts Ht _ IH]; [reflexivity|].
  rewrite filter_cons_False by (intros Hne; contradiction). exact IH.
Qed.

(** ** Dictionaries *)

Lemma dict_set_fresh k v d : k ∉ keys d -> dict_set k v d = d ++ [(k, v)].
Proof.
  unfold keys. induction d as [|[k' v'] d IH]; [reflexivity|].
  rewrite fmap_cons, not_elem_of_cons. cbn [dict_set fst]. intros [Hne Hnin].
  destruct (decide (k' = k)); [congruence|]. rewrite IH by assumption.
  reflexivity.
Qed.

Lemma keys_dict_set_old k v d : k ∈ keys d -> keys (dict_set k v d) = keys d.
Proof.
  unfold keys. induction d as [|[k' v'] d IH].
  - intros H. inversion H.
  - rewrite fmap_cons, elem_of_cons. cbn [dict_set fst]. intros Hin.
    destruct (decide (k' = k)) as [->|Hne]; rewrite fmap_cons; [reflexivity|].
    rewrite IH; [reflexivity|]. destruct Hin; congruence.
Qed.

Lemma elem_of_keys_dict_set x k v d :
  x ∈ keys (dict_set k v d) <-> x = k \/ x ∈ keys d.
Proof.
  destruct (decide (k ∈ keys d)) as [Hin|Hnin].
  - rewrite keys_dict_set_old by assumption. split; [auto|].
    intros [->|H]; assumption.
  - rewrite dict_set_fresh by assumption. unfold keys.
    rewrite fmap_app, elem_of_app. simpl. rewrite list_elem_of_singleton.
    tauto.
Qed.

Lemma NoDup_keys_dict_set k v d :
  NoDup (keys d) -> NoDup (keys (dict_set k v d)).
Proof.
  intros Hd. destruct (decide (k ∈ keys d)) as [Hin|Hnin].
  - rewrite keys_dict_set_old; assumption.
  - rewrite dict_set_fresh by assumption. unfold keys in *.
    rewrite fmap_app. apply NoDup_app. split; [assumption|]. split.
    + simpl. intros x Hx Hk. apply list_elem_of_singleton in Hk. congruence.
    + apply NoDup_singleton.
Qed.





Lemma foldl_dict_add_keys d ps :
  NoDup (keys d) ->
  NoDup (keys (foldl dict_add d ps)) /\
  forall x, x ∈ keys (foldl dict_add d ps) <-> x ∈ keys d \/ x ∈ ps.*1.
Proof.
  revert d. induction ps as [|[k v] ps IH]; intros d Hd; simpl.
  - split; [assumption|]. intros x. rewrite elem_of_nil. tauto.
  - destruct (IH (dict_add d (k, v))) as [Hnd Hel].
    { apply NoDup_keys_dict_set. assumption. }
    split; [assumption|]. intros x. rewrite Hel. unfold dict_add. simpl.
    rewrite elem_of_keys_dict_set, elem_of_cons. tauto.
Qed.

Lemma foldl_dict_add_fresh d ps :
  NoDup (keys d ++ ps.*1) -> foldl dict_add d ps = d ++ ps.
Proof.
  revert d. induction ps as [|[k v] ps IH]; intros d Hnd; simpl in *.
  - rewrite app_nil_r. reflexivity.
  - apply NoDup_app in Hnd as (Hd & Hsep & Hps).
    apply NoDup_cons in Hps as [Hk Hps].
    assert (Hfresh : k ∉ keys d).
    { intros Hin. apply (Hsep _ Hin). left. }
    unfold dict_add at 2. simpl. rewrite dict_set_fresh by assumption.
    rewrite IH.
    + rewrite <- app_assoc. reflexivity.
    + unfold keys in *. rewrite fmap_app. simpl. rewrite <- app_assoc. simpl.
      apply NoDup_app. split; [assumption|]. split.
      * intros x Hx. rewrite not_elem_of_cons. split.
        -- intros ->. contradiction.
        -- intros Hin. apply (Hsep _ Hx). right. assumption.
      * apply NoDup_cons. split; assumption.
Qed.

(** Pairs with distinct keys make the dictionary with these very pairs. *)
Lemma from_pairs_NoDup ps : NoDup ps.*1 -> from_pairs ps = ps.
Proof. intros H. unfold from_pairs. rewrite foldl_dict_add_fresh; done. Qed.


(** ** The rows of a table *)

Lemma index_lookup {A} (l : list A) i x : l !! i = Some x -> index l i = Return x.
Proof. unfold index. intros ->. reflexivity. Qed.

(** A comprehension over [range(len(ps))] whose i-th step gives the i-th
    pair of [ps] inserts the pairs of [ps] one after the other. *)
Lemma dict_comp_pairs kv (ps : list (string * string)) k d :
  (forall i p, ps !! i = Some p -> kv (k + i) = Return p) ->
  dict_comp kv (seq k (length ps)) d = Return (foldl dict_add d ps).
Proof.
  revert k d. induction ps as [|p ps IH]; intros k d Hkv; simpl; [reflexivity|].
  assert (Hk : kv k = Return p).
  { rewrite <- (Nat.add_0_r k). apply Hkv. reflexivity. }
  rewrite Hk, bind_Return. apply IH. intros i q Hq.
  rewrite Nat.add_succ_comm. apply Hkv. exact Hq.
Qed.

Lemma NoDup_positional_keys texts : NoDup (positional texts).*1.
Proof.
  apply NoDup_alt. intros i j x. unfold positional.
  rewrite !list_lookup_fmap, !list_lookup_imap.
  destruct (texts !! i); [|discriminate].
  destruct (texts !! j); [|discriminate]. simpl.
  intros Hi Hj. rewrite <- Hi in Hj.
  assert (Hcol : "col_" +:+ pretty j = "col_" +:+ pretty i) by congruence.
  apply (inj (String.append "col_")), (inj pretty) in Hcol. congruence.
Qed.

Lemma make_row_headers headers texts :
  headers <> [] -> length headers = length texts ->
  make_row headers texts = Return (from_pairs (zip headers texts)).
Proof.
  intros Hne Hlen. unfold make_row.
  rewrite bool_decide_eq_false_2 by assumption.
  rewrite (proj2 (Nat.eqb_eq _ _) Hlen). simpl.
  replace (length texts) with (length (zip headers texts))
    by (apply length_zip_with_r_eq; congruence).
  apply (dict_comp_pairs _ _ 0). intros i [h t] Hp. simpl.
  apply lookup_zip_with_Some in Hp as (h' & t' & [= <- <-] & Hh & Ht).
  rewrite (index_lookup _ _ _ Hh), bind_Return.
  rewrite (index_lookup _ _ _ Ht), bind_Return. reflexivity.
Qed.

Lemma make_row_positional headers texts :
  ~ (headers <> [] /\ length headers = length texts) ->
  make_row headers texts = Return (positional texts).
Proof.
  intros Hcond. unfold make_row.
  destruct (negb (bool_decide (headers = [])) &&
            (length headers =? length texts)%nat) eqn:Hb.
  { exfalso. apply Hcond. apply andb_true_iff in Hb as [H1 H2].
    apply negb_true_iff, bool_decide_eq_false in H1.
    apply Nat.eqb_eq in H2. split; assumption. }
  rewrite <- (from_pairs_NoDup (positional texts))
    by apply NoDup_positional_keys.
  replace (length texts) with (length (positional texts))
    by (unfold positional; apply length_imap).
  apply (dict_comp_pairs _ _ 0). intros i p Hp. simpl.
  unfold positional in Hp. rewrite list_lookup_imap in Hp.
  destruct (texts !! i) as [t|] eqn:Ht; [|discriminate].
  injection Hp as <-. rewrite (index_lookup _ _ _ Ht), bind_Return.
  reflexivity.
Qed.

Lemma tr_body_row_record headers tr results :
  tr_body headers tr results =
  Return (results ++ option_list (row_record headers tr)).
Proof.
  unfold tr_body, row_record.
  destruct (find_all tr "td") as [|c cells] eqn:Hcells.
  - simpl. rewrite app_nil_r. reflexivity.
  - set (texts := map (get_text "") (c :: cells)).
    change (get_text "" <$> c :: cells) with texts.
    assert (Htexts : exists t ts, texts = t :: ts) by (simpl; eauto).
    destruct (decide (headers <> [] /\ length headers = length texts))
      as [[Hne Hlen]|Hcond].
    + rewrite make_row_headers by assumption.
      destruct Htexts as (t & ts & Ht). rewrite Ht at 2. reflexivity.
    + rewrite make_row_positional by assumption.
      destruct Htexts as (t & ts & Ht). rewrite Ht at 2. reflexivity.
Qed.

Lemma parse_table_records table :
  parse_table table [] =
  Return (omap (row_record (get_text "" <$> find_all table "th"))
               (find_all table "tr")).
Proof.
  unfold parse_table.
  rewrite (for_each_emit _ (row_record (get_text "" <$> find_all table "th"))).
  - reflexivity.
  - intros tr res _. apply tr_body_row_record.
Qed.



(** ** List items and paragraphs *)

Lemma parse_lis_records lis :
  for_each li_body lis [] = Return (omap li_record lis).
Proof.
  rewrite (for_each_emit _ li_record); [reflexivity|].
  intros li res _. unfold li_body, li_record.
  destruct (str_bool (get_text " " li)); simpl; [reflexivity|].
  rewrite app_nil_r. reflexivity.
Qed.

Lemma li_record_nonempty e :
  get_text " " e <> "" ->
  li_record e = Some [("text", get_text " " e)].
Proof.
  intros H. apply str_bool_true in H. unfold li_record. rewrite H.
  reflexivity.
Qed.

Lemma parse_ps_records ps :
  for_each p_body ps [] = Return (text_record <$> ps).
Proof.
  rewrite (for_each_emit _ (fun p => Some (text_record p))).
  - rewrite omap_total. reflexivity.
  - intros p res _. reflexivity.
Qed.

Lemma paragraph_records soup :
  text_record <$> paragraph_texts soup =
  omap (fun e => let t := get_text "" e in
                 if str_bool t then Some (text_record t) else None)
       (find_all soup "p").
Proof.
  unfold paragraph_texts.
  rewrite (omap_nonempty (get_text "") text_record).
  rewrite (omap_nonempty (get_text "") id), list_fmap_id. reflexivity.
Qed.

(** ** The four ways through [parse_html] *)

Lemma parse_html_table soup table lg :
  find soup "table" = Some table ->
  parse_html soup lg =
  (Return (omap (row_record (get_text "" <$> find_all table "th"))
                (find_all table "tr")),
   lg ++ [info_found_table]).
Proof.
  intros H. unfold parse_html. rewrite H, parse_table_records. reflexivity.
Qed.

Lemma parse_html_li soup lg :
  find soup "table" = None -> find_all soup "li" <> [] ->
  parse_html soup lg =
  (Return (omap li_record (find_all soup "li")),
   lg ++ [info_parsing_li (length (find_all soup "li"))]).
Proof.
  intros H Hli. unfold parse_html. rewrite H.
  destruct (find_all soup "li") as [|x lis]; [congruence|].
  rewrite parse_lis_records. reflexivity.
Qed.

Lemma parse_html_p soup lg :
  find soup "table" = None -> find_all soup "li" = [] ->
  paragraph_texts soup <> [] ->
  parse_html soup lg =
  (Return (text_record <$> paragraph_texts soup),
   lg ++ [info_parsing_p (length (paragraph_texts soup))]).
Proof.
  intros H Hli Hp. unfold parse_html. rewrite H, Hli.
  destruct (paragraph_texts soup) as [|x ps]; [congruence|].
  rewrite parse_ps_records. reflexivity.
Qed.

Lemma parse_html_nothing soup lg :
  find soup "table" = None -> find_all soup "li" = [] ->
  paragraph_texts soup = [] ->
  parse_html soup lg = (Return [], lg ++ [warning_no_structures]).
Proof.
  intros H Hli Hp. unfold parse_html. rewrite H, Hli, Hp. reflexivity.
Qed.

Lemma parse_html_returns soup lg :
  exists rs r, parse_html soup lg = (Return rs, lg ++ [r]).
Proof.
  destruct (find soup "table") as [table|] eqn:Htable; [|
  destruct (find_all soup "li") as [|x lis] eqn:Hli; [
  destruct (paragraph_texts soup) as [|p ps] eqn:Hps|]].
  - do 2 eexists. apply parse_html_table. exact Htable.
  - do 2 eexists. apply parse_html_nothing; assumption.
  - do 2 eexists. apply parse_html_p; congruence.
  - do 2 eexists. apply parse_html_li; congruence.
Qed.

(** ** Runs on the sample documents *)

Example strip_both_ends : strip "  Jane  Doe " = "Jane  Doe".
Proof. reflexivity. Qed.

Example get_text_pieces :
  get_text "" (Tag "td" [NavigableString " Jane "; Tag "b" [NavigableString "Doe"];
                         Comment "note"; NavigableString "  "]) = "JaneDoe" /\
  get_text " " (Tag "li" [NavigableString " Jane "; Tag "b" [NavigableString "Doe"];
                          Comment "note"; NavigableString "  "]) = "Jane Doe".
Proof. split; reflexivity. Qed.

(** Without the test on the lengths the first comprehension would raise. *)
Example index_out_of_range :
  dict_comp (fun i => h ← index ["Name"] i; t ← index ["Bob"; "DE"] i;
                      Return (h, t))
            (seq 0 2) [] = Raise IndexError.
Proof. reflexivity. Qed.

Example sample_table_result :
  parse_html sample_table [] =
  (Return [[("Name", "Alice"); ("Country", "FR")];
           [("col_0", "Bob"); ("col_1", "DE"); ("col_2", "x")]],
   [info_found_table]).
Proof. vm_compute. reflexivity. Qed.

Example empty_table_hides_list :
  parse_html (document [Tag "table" []; Tag "ul" [li "A"]]) [] =
  (Return [], [info_found_table]).
Proof. reflexivity. Qed.

Example repeated_name_row :
  make_row ["Name"; "Alias"; "Name"] ["Alice"; "Al"; "A. Smith"] =
  Return [("Name", "A. Smith"); ("Alias", "Al")].
Proof. reflexivity. Qed.

Example sample_nested_result :
  parse_html (document [sample_nested]) [] =
  (Return [[("Name", "Alice"); ("Aliases", "AliasAl"); ("Alias", "Al")];
           [("col_0", "Al")];
           [("col_0", "Bob")]],
   [info_found_table]).
Proof. vm_compute. reflexivity. Qed.

Example sample_people_result :
  parse_html (document [sample_people]) [] =
  (Return [[("Name", "JaneDoe"); ("Country", "FR")];
           [("col_0", "Bob"); ("col_1", "DE"); ("col_2", "x")]],
   [info_found_table]).
Proof. vm_compute. reflexivity. Qed.

Example unknown_marked_section_rejected :
  unknown_marked_section "<![foo bar]>" = true /\
  unknown_marked_section "<![CDATA[x]]>" = false /\
  unknown_marked_section "<![if gte mso 9]>" = false /\
  unknown_marked_section "<p><![foo bar]></p>" = false /\
  unknown_marked_section "<![foo" = false.
Proof. repeat split; reflexivity. Qed.

(** ** The claims *)

(** Membership in a list that evaluates to a list of known elements. *)
Ltac elem_of_computed := vm_compute; repeat first [left | right].

(** C1: the strategies are tried in the order table, list items, paragraphs,
    and the first one whose elements exist decides the output.  For a
    document whose tree contains a [table] element, the output is what the
    rows of the first such element give (also when that is the empty list)
    and no log record other than the one of the table branch is emitted; any
    other document with the same first table gives the same output, whatever
    list items or paragraphs either of them has. *)
Theorem parse_html_table_first soup lg :
  (exists d, d ∈ descendants soup /\ has_name "table" d) ->
  exists table pre post,
    descendants soup = pre ++ table :: post /\
    has_name "table" table /\
    Forall (fun x => ~ has_name "table" x) pre /\
    parse_html soup lg = (parse_table table [], lg ++ [info_found_table]) /\
    (exists rs, parse_table table [] = Return rs) /\
    forall soup' lg',
      find soup' "table" = Some table ->
      (parse_html soup' lg').1 = (parse_html soup lg).1.
Proof.
  intros Hex. apply find_all_nonempty in Hex.
  destruct (find soup "table") as [table|] eqn:Hfind.
  2:{ apply head_None in Hfind. contradiction. }
  pose proof Hfind as Hsome.
  apply find_Some in Hsome as (pre & post & Hdesc & Hname & Hpre).
  exists table, pre, post. repeat split; try assumption.
  - rewrite (parse_html_table _ _ _ Hfind), parse_table_records. reflexivity.
  - rewrite parse_table_records. eauto.
  - intros soup' lg' Hfind'.
    rewrite (parse_html_table _ _ _ Hfind), (parse_html_table _ _ _ Hfind').
    reflexivity.
Qed.

Lemma parse_html_table_first_witness :
  exists table pre post,
    descendants sample_table = pre ++ table :: post /\
    has_name "table" table /\
    Forall (fun x => ~ has_name "table" x) pre /\
    parse_html sample_table [] =
      (parse_table table [], [] ++ [info_found_table]) /\
    (exists rs, parse_table table [] = Return rs) /\
    forall soup' lg',
      find soup' "table" = Some table ->
      (parse_html soup' lg').1 = (parse_html sample_table []).1.
Proof.
  apply (parse_html_table_first sample_table []).
  exists sample_rows. split.
  - elem_of_computed.
  - vm_compute. exact I.
Defined.




(** C3 (as amended): in a document without table and list items the text of
    a paragraph is the concatenation, with nothing in between, of the
    stripped non-empty strings below it; paragraphs whose text is empty are
    left out before anything else, each other one gives the record
    [text]; the paragraph branch is entered (and logged, with the number of
    non-empty paragraphs) only when one is left, else the function ends
    with the warning and the same empty list. *)
Theorem parse_html_paragraphs soup lg :
  find soup "table" = None ->
  find_all soup "li" = [] ->
  let texts :=
    filter (fun text => text <> "") (get_text "" <$> find_all soup "p") in
  parse_html soup lg =
    (Return ((fun text => [("text", text)]) <$> texts),
     lg ++ [if decide (texts = []) then warning_no_structures
            else info_parsing_p (length texts)]).
Proof.
  intros Htable Hli texts.
  assert (Hps : paragraph_texts soup = texts).
  { unfold paragraph_texts, texts.
    rewrite (omap_nonempty (get_text "") id), list_fmap_id. reflexivity. }
  destruct (decide (texts = [])) as [Hnil|Hne].
  - rewrite parse_html_nothing by (assumption || congruence).
    rewrite Hnil. reflexivity.
  - rewrite parse_html_p by (assumption || congruence).
    rewrite Hps. reflexivity.
Qed.

Lemma parse_html_paragraphs_witness :
  parse_html sample_paragraphs [] =
  (Return [[("text", "JaneDoe")]], [info_parsing_p 1]).
Proof.
  apply (parse_html_paragraphs sample_paragraphs []); reflexivity.
Defined.

(** C3 as stated fails: the paragraph branch joins the strings of a
    paragraph without the space the list branch puts between them, and it
    is not entered when every paragraph is empty. *)
Lemma paragraphs_not_as_list_items :
  find sample_paragraphs "table" = None /\
  find_all sample_paragraphs "li" = [] /\
  (parse_html sample_paragraphs []).1 = Return [[("text", "JaneDoe")]] /\
  paragraphs_as_list_items sample_paragraphs =
    Return [[("text", "Jane Doe")]] /\
  (parse_html sample_paragraphs []).1 <>
    paragraphs_as_list_items sample_paragraphs /\
  parse_html (document [Tag "p" [NavigableString "  "]]) [] =
    (Return [], [warning_no_structures]).
Proof.
  repeat split; try reflexivity.
  vm_compute. discriminate.
Qed.

(** C4: in a document without a table and with at least one [li] element
    the list branch decides the output, whatever the texts of the items
    are: the items are visited in document order, an item whose
    space-joined stripped text is empty gives nothing, every other item
    gives the one-field record [text], and when all items are empty the
    output is the empty list, not the paragraphs. *)
Theorem parse_html_list_items soup lg :
  find soup "table" = None ->
  find_all soup "li" <> [] ->
  let texts := get_text " " <$> find_all soup "li" in
  parse_html soup lg =
    (Return ((fun text => [("text", text)]) <$>
             filter (fun text => text <> "") texts),
     lg ++ [info_parsing_li (length texts)]) /\
  (Forall (fun text => text = "") texts -> (parse_html soup lg).1 = Return []).
Proof.
  intros Htable Hli texts.
  assert (Hres : parse_html soup lg =
    (Return ((fun text => [("text", text)]) <$>
             filter (fun text => text <> "") texts),
     lg ++ [info_parsing_li (length texts)])).
  { rewrite (parse_html_li _ _ Htable Hli). unfold texts.
    rewrite length_fmap. f_equal. f_equal.
    apply (omap_nonempty (get_text " ") text_record). }
  split; [exact Hres|].
  intros Hall. rewrite Hres, (filter_all_empty _ Hall). reflexivity.
Qed.

Lemma parse_html_list_items_witness :
  parse_html sample_list [] =
    (Return [[("text", "A")]; [("text", "B")]; [("text", "A")]],
     [info_parsing_li 4]) /\
  (parse_html sample_empty_items []).1 = Return [].
Proof.
  split.
  - apply (parse_html_list_items sample_list []).
    + reflexivity.
    + vm_compute. discriminate.
  - apply (parse_html_list_items sample_empty_items []).
    + reflexivity.
    + vm_compute. discriminate.
    + vm_compute. repeat constructor.
Defined.

(** C5 (as amended): the code of [parse_html] after line 54 raises no
    error.  For every markup that the parser turns into a tree the function
    returns normally, with one log record, and when the tree has no
    [table], [li] and [p] element the result is the empty list, after the
    warning.  The only error a call can end with is the one of line 54, for
    markup that the parser rejects. *)
Theorem parse_html_markup_errors rest html lg :
  (forall soup,
     BeautifulSoup rest html = Some soup ->
     exists rs r,
       parse_html_markup rest html lg = (finished rs, lg ++ [r]) /\
       (find soup "table" = None -> find_all soup "li" = [] ->
        find_all soup "p" = [] -> rs = [] /\ r = warning_no_structures)) /\
  (forall e,
     (parse_html_markup rest html lg).1 = failed e ->
     e = ParserRejectedMarkup /\ BeautifulSoup rest html = None).
Proof.
  unfold parse_html_markup. split.
  - intros soup Hsoup. rewrite Hsoup.
    destruct (parse_html_returns soup lg) as (rs & r & Hp). rewrite Hp.
    exists rs, r. split; [reflexivity|]. intros Htable Hli Hpar.
    rewrite parse_html_nothing in Hp; try assumption.
    + injection Hp as <- Hr. apply app_inv_head in Hr. injection Hr as <-.
      split; reflexivity.
    + unfold paragraph_texts. rewrite Hpar. reflexivity.
  - intros e. destruct (BeautifulSoup rest html) as [soup|].
    + destruct (parse_html_returns soup lg) as (rs & r & Hp). rewrite Hp.
      discriminate.
    + intros [= <-]. split; reflexivity.
Qed.

Lemma parse_html_markup_errors_witness :
  parse_html_markup
    (fun _ => Some (document [Tag "div" [NavigableString "no structure"]]))
    "<div>no structure</div>" [] = (finished [], [warning_no_structures]).
Proof.
  destruct (proj1 (parse_html_markup_errors
             (fun _ => Some (document [Tag "div" [NavigableString "no structure"]]))
             "<div>no structure</div>" [])
             (document [Tag "div" [NavigableString "no structure"]]) eq_refl)
    as (rs & r & Heq & Hempty).
  destruct (Hempty eq_refl eq_refl eq_refl) as [Hrs Hr].
  rewrite Hrs, Hr in Heq. exact Heq.
Defined.

(** C5 as stated fails: line 54 raises for markup that the parser
    rejects, whatever the rest of the parser does, and nothing in
    [parse_html] catches it. *)
Lemma markup_rejected_by_parser :
  parse_html_markup (fun _ => Some (document [])) "<![foo bar]>" [] =
    (failed ParserRejectedMarkup, []) /\
  ~ (forall rest html lg,
       exists rs, (parse_html_markup rest html lg).1 = finished rs).
Proof.
  split; [reflexivity|]. intros H.
  destruct (H (fun _ => Some (document [])) "<![foo bar]>" []) as [rs Hrs].
  discriminate Hrs.
Qed.

(** C6: the output lists, in document order, what the rows of the first
    table (or else the list items, or else the paragraphs) give.  These
    elements are taken in the order in which they occur among the
    descendants of the document; each of them that gives a record gives one
    record, the records stand in the order of their elements, and nothing is
    reordered or merged: the output is the image of the elements under a
    function of the single element. *)
Theorem parse_html_document_order soup lg :
  exists rs,
    (parse_html soup lg).1 = Return rs /\
    rs = omap (record_of soup) (sources soup) /\
    sources soup `sublist_of` descendants soup /\
    Forall2 (fun e r => record_of soup e = Some r)
            (filter (fun e => is_Some (record_of soup e)) (sources soup)) rs.
Proof.
  exists (omap (record_of soup) (sources soup)).
  split; [|split; [reflexivity|split; [|apply omap_Forall2]]].
  - unfold sources, record_of.
    destruct (find soup "table") as [table|] eqn:Htable; [|
    destruct (find_all soup "li") as [|x lis] eqn:Hli].
    + rewrite (parse_html_table _ _ _ Htable). reflexivity.
    + destruct (paragraph_texts soup) as [|p ps] eqn:Hps.
      * rewrite parse_html_nothing by assumption.
        rewrite <- paragraph_records, Hps. reflexivity.
      * rewrite parse_html_p by (assumption || congruence).
        rewrite <- paragraph_records, Hps. reflexivity.
    + rewrite parse_html_li by (assumption || congruence).
      rewrite Hli. reflexivity.
  - unfold sources.
    destruct (find soup "table") as [table|] eqn:Htable; [|
    destruct (find_all soup "li") as [|x lis] eqn:Hli].
    + apply find_Some in Htable as (pre & post & Hdesc & _).
      etransitivity; [apply find_all_sublist|].
      apply descendants_sublist. rewrite Hdesc.
      apply elem_of_app. right. left.
    + apply find_all_sublist.
    + rewrite <- Hli. apply find_all_sublist.
Qed.



(** C9 (as amended): [find_all] looks at every descendant of the first
    table, so for a table nested in it the header cells of the nested table
    are part of the header at their place in document order (after the
    outer header cells that precede the nested table, before those that
    follow it), and the rows of the nested table are rows of the loop: the
    output is what the outer rows before the nested table give, then what
    the rows of the nested table give, then what the rows after it give,
    and every row of the nested table that has a data cell gives a record
    there, built with that whole header. *)
Theorem nested_table_rows soup table nested lg :
  find soup "table" = Some table ->
  nested ∈ find_all table "table" ->
  let headers := get_text "" <$> find_all table "th" in
  exists pre post rs1 rs2 rs3,
    descendants table = pre ++ nested :: descendants nested ++ post /\
    headers =
      (get_text "" <$> filter (fun x => has_name "th" x) pre) ++
      (get_text "" <$> find_all nested "th") ++
      (get_text "" <$> filter (fun x => has_name "th" x) post) /\
    (parse_html soup lg).1 = Return (rs1 ++ rs2 ++ rs3) /\
    rs1 = omap (row_record headers) (filter (fun x => has_name "tr" x) pre) /\
    rs2 = omap (row_record headers) (find_all nested "tr") /\
    rs3 = omap (row_record headers) (filter (fun x => has_name "tr" x) post) /\
    forall tr,
      tr ∈ find_all nested "tr" ->
      let texts := get_text "" <$> find_all tr "td" in
      texts <> [] ->
      (if decide (headers <> [] /\ length headers = length texts)
       then from_pairs (zip headers texts)
       else imap (fun i t => ("col_" +:+ pretty i, t)) texts) ∈ rs2.
Proof.
  intros Hfind Hnested headers.
  apply elem_of_find_all in Hnested as [Hd Hname].
  destruct (descendants_block _ _ Hd) as (pre & post & Hdesc).
  assert (Hth := find_all_block _ _ "th" _ _ _ Hdesc Hname).
  assert (Htr := find_all_block _ _ "tr" _ _ _ Hdesc Hname).
  exists pre, post. do 3 eexists.
  split; [exact Hdesc|]. split.
  { unfold headers. rewrite Hth by discriminate. rewrite !fmap_app.
    reflexivity. }
  split.
  { rewrite (parse_html_table _ _ _ Hfind). fold headers.
    rewrite Htr by discriminate. rewrite !omap_app. reflexivity. }
  split; [reflexivity|]. split; [reflexivity|]. split; [reflexivity|].
  intros tr Htr_in texts Htexts.
  apply list_elem_of_omap. exists tr. split; [exact Htr_in|].
  unfold row_record. fold texts.
  destruct texts as [|t ts]; [congruence|]. reflexivity.
Qed.

Lemma nested_table_rows_witness :
  exists pre post rs1 rs2 rs3,
    descendants sample_nested_middle =
      pre ++ sample_inner_table :: descendants sample_inner_table ++ post /\
    ["A"; "N"; "B"] =
      (get_text "" <$> filter (fun x => has_name "th" x) pre) ++
      (get_text "" <$> find_all sample_inner_table "th") ++
      (get_text "" <$> filter (fun x => has_name "th" x) post) /\
    (parse_html (document [sample_nested_middle]) []).1 =
      Return (rs1 ++ rs2 ++ rs3) /\
    rs1 = omap (row_record ["A"; "N"; "B"])
               (filter (fun x => has_name "tr" x) pre) /\
    rs2 = omap (row_record ["A"; "N"; "B"])
               (find_all sample_inner_table "tr") /\
    rs3 = omap (row_record ["A"; "N"; "B"])
               (filter (fun x => has_name "tr" x) post) /\
    forall tr,
      tr ∈ find_all sample_inner_table "tr" ->
      let texts := get_text "" <$> find_all tr "td" in
      texts <> [] ->
      (if decide (["A"; "N"; "B"] <> [] /\
                  length ["A"; "N"; "B"] = length texts)
       then from_pairs (zip ["A"; "N"; "B"] texts)
       else imap (fun i t => ("col_" +:+ pretty i, t)) texts) ∈ rs2.
Proof.
  apply (nested_table_rows (document [sample_nested_middle])
           sample_nested_middle sample_inner_table []).
  - reflexivity.
  - elem_of_computed.
Defined.

(** C9 as stated fails when an outer header cell follows the nested table:
    the header cells of the nested table are then not at the end of the
    header; and a row of the nested table without data cells gives no
    record. *)
Lemma nested_header_not_appended :
  find (document [sample_nested_middle]) "table" =
    Some sample_nested_middle /\
  sample_inner_table ∈ find_all sample_nested_middle "table" /\
  get_text "" <$> find_all sample_nested_middle "th" = ["A"; "N"; "B"] /\
  get_text "" <$> find_all sample_inner_table "th" = ["N"] /\
  (~ exists outer,
       get_text "" <$> find_all sample_nested_middle "th" =
       outer ++ (get_text "" <$> find_all sample_inner_table "th")) /\
  find_all sample_inner_table "tr" = [Tag "tr" [th "N"]; Tag "tr" [td "n"]] /\
  (parse_html (document [sample_nested_middle]) []).1 =
    Return [[("col_0", "Nn"); ("col_1", "n")]; [("col_0", "n")]].
Proof.
  split; [reflexivity|]. split; [elem_of_computed|].
  split; [reflexivity|]. split; [reflexivity|]. split.
  - intros (outer & H). vm_compute in H.
    destruct outer as [|a [|b [|c [|d outer]]]]; discriminate H.
  - split; [reflexivity|]. vm_compute. reflexivity.
Qed.

(** C10 (as amended): in the list branch the nested items are items of the
    loop.  For a list item nested inside another one, when the nested item
    has non-empty text: the outer item gives a record, the nested item gives
    a record of its own further down the output, and the text of the nested
    item occurs inside the text of the outer item's record. *)
Theorem nested_list_item_collected soup outer inner lg :
  find soup "table" = None ->
  outer ∈ find_all soup "li" ->
  inner ∈ find_all outer "li" ->
  get_text " " inner <> "" ->
  exists rs1 rs2 rs3 before after,
    (parse_html soup lg).1 =
      Return (rs1 ++ [("text", get_text " " outer)] ::
              rs2 ++ [("text", get_text " " inner)] :: rs3) /\
    get_text " " outer = before +:+ get_text " " inner +:+ after.
Proof.
  intros Htable Houter Hinner Htext.
  assert (Hlis : find_all soup "li" <> []).
  { intros Hnil. rewrite Hnil in Houter. inversion Houter. }
  apply elem_of_find_all in Houter as [Hout Hout_li].
  apply elem_of_find_all in Hinner as [Hin Hin_li].
  destruct (get_text_infix " " _ _ Hin) as (before & after & Hinfix).
  assert (Houter_text : get_text " " outer <> "").
  { rewrite Hinfix. apply str_app_nonempty. exact Htext. }
  destruct (descendants_block _ _ Hout) as (pre & post & Hdesc).
  destruct (descendants_block _ _ Hin) as (pre' & post' & Hdesc').
  rewrite (parse_html_li _ _ Htable Hlis).
  unfold find_all at 1. rewrite Hdesc, Hdesc'.
  rewrite filter_app, filter_cons_True by assumption.
  rewrite <- app_assoc, <- app_comm_cons.
  rewrite (filter_app _ pre'), filter_cons_True by assumption.
  rewrite omap_app, (omap_cons_Some _ _ _ _ (li_record_nonempty _ Houter_text)).
  rewrite omap_app, (omap_cons_Some _ _ _ _ (li_record_nonempty _ Htext)).
  do 3 eexists. exists before, after. split; [reflexivity|exact Hinfix].
Qed.

Lemma nested_list_item_collected_witness :
  exists rs1 rs2 rs3 before after,
    (parse_html sample_nested_list []).1 =
      Return (rs1 ++ [("text", "Acme Ltd Acme Holdings")] ::
              rs2 ++ [("text", "Acme Holdings")] :: rs3) /\
    "Acme Ltd Acme Holdings" = before +:+ "Acme Holdings" +:+ after.
Proof.
  apply (nested_list_item_collected sample_nested_list
           sample_outer_item (li "Acme Holdings") []).
  - reflexivity.
  - elem_of_computed.
  - elem_of_computed.
  - vm_compute. discriminate.
Defined.

(** C10 as stated fails on a nested item without text: the item is in the
    collection, but the loop skips it, so it has no record of its own. *)
Lemma nested_empty_item_no_record :
  find sample_nested_list "table" = None /\
  sample_outer_item ∈ find_all sample_nested_list "li" /\
  li " " ∈ find_all sample_outer_item "li" /\
  (parse_html sample_nested_list []).1 =
    Return [[("text", "Acme Ltd Acme Holdings")];
            [("text", "Acme Holdings")]] /\
  ~ exists rs1 rs2 rs3,
      (parse_html sample_nested_list []).1 =
      Return (rs1 ++ [("text", get_text " " sample_outer_item)] ::
              rs2 ++ [("text", get_text " " (li " "))] :: rs3).
Proof.
  split; [reflexivity|].
  split; [elem_of_computed|].
  split; [elem_of_computed|].
  split; [reflexivity|].
  intros (rs1 & rs2 & rs3 & H).
  assert (Hin : [("text", get_text " " (li " "))] ∈
                [[("text", "Acme Ltd Acme Holdings")];
                 [("text", "Acme Holdings")]]).
  { change ((parse_html sample_nested_list []).1) with
      (Return [[("text", "Acme Ltd Acme Holdings")];
               [("text", "Acme Holdings")]]) in H.
    injection H as ->. rewrite elem_of_app, elem_of_cons, elem_of_app.
    right. right. right. left. }
  vm_compute in Hin.
  apply elem_of_cons in Hin as [Hin|Hin]; [discriminate|].
  apply elem_of_cons in Hin as [Hin|Hin]; [discriminate|].
  inversion Hin.
Qed.

(** ** Further properties *)

Lemma rev_app_append s acc : String.rev_app s acc = String.rev s +:+ acc.
Proof.
  unfold String.rev. revert acc.
  induction s as [|c s IH]; intros acc; [reflexivity|].
  cbn [String.rev_app]. rewrite (IH (String c acc)), (IH (String c "")).
  rewrite str_app_assoc. reflexivity.
Qed.

Lemma rev_cons c s : String.rev (String c s) = String.rev s +:+ String c "".
Proof. unfold String.rev at 1. cbn [String.rev_app]. apply rev_app_append. Qed.

Lemma rev_append a b : String.rev (a +:+ b) = String.rev b +:+ String.rev a.
Proof.
  induction a as [|c a IH].
  - change ("" +:+ b) with b. rewrite str_app_nil_r. reflexivity.
  - change (String c a +:+ b) with (String c (a +:+ b)).
    rewrite !rev_cons, IH, str_app_assoc. reflexivity.
Qed.

Lemma rev_involutive s : String.rev (String.rev s) = s.
Proof.
  induction s as [|c s IH]; [reflexivity|].
  rewrite rev_cons, rev_append, IH. reflexivity.
Qed.

Lemma rev_empty s : String.rev s = "" -> s = "".
Proof. intros H. rewrite <- (rev_involutive s), H. reflexivity. Qed.

Lemma all_space_append a b : all_space (a +:+ b) = all_space a && all_space b.
Proof.
  induction a as [|c a IH]; [reflexivity|].
  change (String c a +:+ b) with (String c (a +:+ b)). cbn [all_space].
  rewrite IH, andb_assoc. reflexivity.
Qed.

Lemma all_space_rev s : all_space (String.rev s) = all_space s.
Proof.
  induction s as [|c s IH]; [reflexivity|].
  rewrite rev_cons, all_space_append, IH. cbn [all_space].
  rewrite andb_true_r, andb_comm. reflexivity.
Qed.

Lemma lstrip_no_leading_space s : no_leading_space (lstrip s).
Proof.
  induction s as [|c s IH]; [exact I|]. cbn [lstrip].
  destruct (isspace c) eqn:Hc; [exact IH|exact Hc].
Qed.

Lemma lstrip_fixed s : no_leading_space s -> lstrip s = s.
Proof. destruct s as [|c s]; [reflexivity|]. cbn. intros ->. reflexivity. Qed.

Lemma lstrip_suffix s :
  exists w, s = w +:+ lstrip s /\ all_space w = true.
Proof.
  induction s as [|c s (w & Hw & Hsp)]; [exists ""; split; reflexivity|].
  cbn [lstrip]. destruct (isspace c) eqn:Hc.
  - exists (String c w). split.
    + change (String c w +:+ lstrip s) with (String c (w +:+ lstrip s)).
      rewrite <- Hw. reflexivity.
    + cbn [all_space]. rewrite Hc, Hsp. reflexivity.
  - exists "". split; reflexivity.
Qed.

Lemma lstrip_empty s : lstrip s = "" <-> all_space s = true.
Proof.
  induction s as [|c s IH]; [split; reflexivity|]. cbn [lstrip all_space].
  destruct (isspace c); cbn; [exact IH|]. split; discriminate.
Qed.

Lemma no_leading_space_prefix a b :
  no_leading_space (a +:+ b) -> a <> "" -> no_leading_space a.
Proof. destruct a as [|c a]; [congruence|]. intros H _. exact H. Qed.

Lemma no_leading_space_append a b :
  no_leading_space a -> a <> "" -> no_leading_space (a +:+ b).
Proof. destruct a as [|c a]; [congruence|]. intros H _. exact H. Qed.

(** What [strip] returns starts and ends with a character that is not
    whitespace, or is empty. *)
Lemma strip_no_leading_space s : no_leading_space (strip s).
Proof.
  unfold strip, rstrip. set (t := lstrip s).
  destruct (lstrip_suffix (String.rev t)) as (w & Hw & _).
  apply (f_equal String.rev) in Hw. rewrite rev_involutive, rev_append in Hw.
  destruct (decide (String.rev (lstrip (String.rev t)) = "")) as [->|Hne];
    [exact I|].
  apply (no_leading_space_prefix _ (String.rev w)); [|exact Hne].
  rewrite <- Hw. apply lstrip_no_leading_space.
Qed.

Lemma strip_no_trailing_space s : no_leading_space (String.rev (strip s)).
Proof.
  unfold strip, rstrip. rewrite rev_involutive. apply lstrip_no_leading_space.
Qed.

Lemma strip_fixed s :
  no_leading_space s -> no_leading_space (String.rev s) -> strip s = s.
Proof.
  intros Hl Hr. unfold strip, rstrip.
  rewrite (lstrip_fixed _ Hl), (lstrip_fixed _ Hr). apply rev_involutive.
Qed.

Lemma strip_empty s : strip s = "" <-> all_space s = true.
Proof.
  split.
  - intros H. unfold strip, rstrip in H. apply rev_empty in H.
    apply lstrip_empty in H. rewrite all_space_rev in H.
    apply lstrip_empty in H.
    rewrite (lstrip_fixed _ (lstrip_no_leading_space s)) in H.
    apply lstrip_empty. exact H.
  - intros H. apply lstrip_empty in H. unfold strip. rewrite H. reflexivity.
Qed.

Lemma stripped_piece d p : stripped d = Some p -> piece p.
Proof.
  destruct d as [s|s|name contents]; simpl; try discriminate.
  destruct (str_bool (strip s)) eqn:Hb; [|discriminate]. intros [= <-].
  split; [apply str_bool_true; exact Hb|]. split.
  - apply strip_no_leading_space.
  - apply strip_no_trailing_space.
Qed.

Lemma stripped_strings_pieces t : Forall piece (stripped_strings t).
Proof.
  apply Forall_forall. intros p Hp. unfold stripped_strings in Hp.
  apply list_elem_of_omap in Hp as (d & _ & Hd). exact (stripped_piece _ _ Hd).
Qed.

Lemma rev_nonempty s : s <> "" -> String.rev s <> "".
Proof. intros Hne H. apply Hne, rev_empty, H. Qed.

Lemma str_app_empty a b : a +:+ b = "" -> a = "".
Proof. destruct a; [reflexivity|discriminate]. Qed.

Lemma join_pieces sep l :
  Forall piece l -> l <> [] -> piece (join sep l).
Proof.
  induction 1 as [|x l Hx Hl IH]; [congruence|]. intros _.
  destruct l as [|y l]; [exact Hx|].
  change (join sep (x :: y :: l)) with (x +:+ sep +:+ join sep (y :: l)).
  destruct Hx as (Hne & Hhead & Hlast).
  destruct IH as (Hne' & _ & Hlast'); [discriminate|].
  split; [|split].
  - intros H. apply Hne. exact (str_app_empty _ _ H).
  - apply no_leading_space_append; assumption.
  - rewrite !rev_append, str_app_assoc.
    apply no_leading_space_append; [assumption|].
    apply rev_nonempty. assumption.
Qed.

(** The text of an element is empty exactly when no string below it has a
    character that is not whitespace. *)
Lemma get_text_empty sep t :
  get_text sep t = "" <->
  forall s, NavigableString s ∈ descendants t -> all_space s = true.
Proof.
  unfold get_text. split.
  - intros H s Hs. apply strip_empty.
    destruct (str_bool (strip s)) eqn:Hb;
      [|destruct (strip s); [reflexivity|discriminate]].
    exfalso.
    assert (Hin : strip s ∈ stripped_strings t).
    { apply list_elem_of_omap. exists (NavigableString s). split; [exact Hs|].
      simpl. rewrite Hb. reflexivity. }
    destruct (join_pieces sep _ (stripped_strings_pieces t)) as (Hne & _).
    + intros Hnil. rewrite Hnil in Hin. inversion Hin.
    + contradiction.
  - intros H. replace (stripped_strings t) with (@nil string); [reflexivity|].
    symmetry. unfold stripped_strings.
    induction (descendants t) as [|d l IH]; [reflexivity|].
    omap_step stripped d l.
    assert (Hd : stripped d = None).
    { destruct d as [s|s|name contents]; try reflexivity. simpl.
      assert (Hs : strip s = "") by (apply strip_empty, H; left).
      rewrite Hs. reflexivity. }
    rewrite Hd. apply IH. intros s Hs. apply H. right. exact Hs.
Qed.

(** [get_text(sep, strip=True)] returns a stripped string. *)
Lemma get_text_stripped sep t : strip (get_text sep t) = get_text sep t.
Proof.
  unfold get_text. destruct (stripped_strings t) as [|p l] eqn:Hl; [reflexivity|].
  destruct (join_pieces sep (p :: l)) as (_ & Hhead & Hlast).
  - rewrite <- Hl. apply stripped_strings_pieces.
  - discriminate.
  - apply strip_fixed; assumption.
Qed.

(** The records of a run, for every branch at once. *)
Lemma parse_html_omap soup lg :
  (parse_html soup lg).1 = Return (omap (record_of soup) (sources soup)).
Proof.
  unfold sources, record_of.
  destruct (find soup "table") as [table|] eqn:Htable; [|
  destruct (find_all soup "li") as [|x lis] eqn:Hli].
  - rewrite (parse_html_table _ _ _ Htable). reflexivity.
  - destruct (paragraph_texts soup) as [|p ps] eqn:Hps.
    + rewrite parse_html_nothing by assumption.
      rewrite <- paragraph_records, Hps. reflexivity.
    + rewrite parse_html_p by (assumption || congruence).
      rewrite <- paragraph_records, Hps. reflexivity.
  - rewrite parse_html_li by (assumption || congruence).
    rewrite Hli. reflexivity.
Qed.

Lemma elem_of_dict_set p k v d : p ∈ dict_set k v d -> p = (k, v) \/ p ∈ d.
Proof.
  induction d as [|[k' v'] d IH]; cbn [dict_set].
  - rewrite list_elem_of_singleton. auto.
  - destruct (decide (k' = k)); rewrite !elem_of_cons; [tauto|].
    intros [->|H]; [auto|]. destruct (IH H); auto.
Qed.

Lemma elem_of_foldl_dict_add p d ps :
  p ∈ foldl dict_add d ps -> p ∈ d \/ p ∈ ps.
Proof.
  revert d. induction ps as [|[k v] ps IH]; intros d; simpl; [auto|].
  intros H. apply IH in H as [H|H]; [|right; right; exact H].
  apply elem_of_dict_set in H as [->|H]; [|auto].
  right. left.
Qed.

(** The values of a row are texts of its cells. *)
Lemma row_record_values headers tr r k v :
  row_record headers tr = Some r -> (k, v) ∈ r ->
  exists cell, cell ∈ find_all tr "td" /\ v = get_text "" cell.
Proof.
  unfold row_record.
  destruct (get_text "" <$> find_all tr "td") as [|t ts] eqn:Htexts;
    [discriminate|].
  intros [= <-] Hin.
  assert (Hv : v ∈ get_text "" <$> find_all tr "td").
  { rewrite Htexts. revert Hin. case_decide; intros Hin.
    - apply elem_of_foldl_dict_add in Hin as [Hin|Hin]; [inversion Hin|].
      apply elem_of_zip_r in Hin. exact Hin.
    - unfold positional in Hin. apply list_elem_of_lookup in Hin as [i Hi].
      rewrite list_lookup_imap in Hi.
      destruct ((t :: ts) !! i) as [x|] eqn:Hx; [|discriminate].
      injection Hi as _ <-. apply list_elem_of_lookup. eauto. }
  apply list_elem_of_fmap in Hv as (cell & -> & Hcell). eauto.
Qed.

(** X1: every value of every record [parse_html] returns is a stripped text:
    it neither starts nor ends with whitespace. *)
Theorem parse_html_values_stripped soup lg rs r k v :
  (parse_html soup lg).1 = Return rs -> r ∈ rs -> (k, v) ∈ r ->
  strip v = v /\ no_leading_space v /\ no_leading_space (String.rev v).
Proof.
  rewrite parse_html_omap. intros [= <-] Hr Hkv.
  assert (Htext : exists sep e, v = get_text sep e).
  { apply list_elem_of_omap in Hr as (e & _ & He). unfold record_of in He.
    destruct (find soup "table") as [table|].
    - destruct (row_record_values _ _ _ _ _ He Hkv) as (cell & _ & ->). eauto.
    - destruct (find_all soup "li") as [|x lis].
      + cbv zeta in He. destruct (str_bool (get_text "" e)); [|discriminate].
        injection He as <-. apply list_elem_of_singleton in Hkv.
        injection Hkv as _ ->. eauto.
      + unfold li_record in He.
        destruct (str_bool (get_text " " e)); [|discriminate].
        injection He as <-. apply list_elem_of_singleton in Hkv.
        injection Hkv as _ ->. eauto. }
  destruct Htext as (sep & e & ->).
  pose proof (get_text_stripped sep e) as Hs. split; [exact Hs|].
  rewrite <- Hs. split.
  - apply strip_no_leading_space.
  - apply strip_no_trailing_space.
Qed.

Lemma parse_html_values_stripped_witness :
  strip "Alice" = "Alice" /\ no_leading_space "Alice" /\
  no_leading_space (String.rev "Alice").
Proof.
  apply (parse_html_values_stripped sample_table []
           [[("Name", "Alice"); ("Country", "FR")];
            [("col_0", "Bob"); ("col_1", "DE"); ("col_2", "x")]]
           [("Name", "Alice"); ("Country", "FR")] "Name" "Alice").
  - reflexivity.
  - elem_of_computed.
  - elem_of_computed.
Defined.

(** X2: a list item is skipped exactly when every string below it is made of
    whitespace only (or there is none). *)
Theorem li_body_skips_blank li results :
  li_body li results = Return results <->
  forall s, NavigableString s ∈ descendants li -> all_space s = true.
Proof.
  rewrite <- (get_text_empty " "). unfold li_body.
  destruct (get_text " " li) as [|c s] eqn:Htext; simpl.
  - split; reflexivity.
  - split; [|discriminate]. intros [= H].
    apply (f_equal length) in H. rewrite length_app in H. simpl in H. lia.
Qed.

Lemma li_body_skips_blank_witness :
  li_body (Tag "li" [Tag "b" [NavigableString "  "]; Comment "x"]) [] =
  Return [].
Proof.
  apply (li_body_skips_blank
           (Tag "li" [Tag "b" [NavigableString "  "]; Comment "x"]) []).
  intros s Hs. vm_compute in Hs.
  apply elem_of_cons in Hs as [Hs|Hs]; [discriminate|].
  apply elem_of_cons in Hs as [Hs|Hs]; [injection Hs as ->; reflexivity|].
  apply elem_of_cons in Hs as [Hs|Hs]; [discriminate|]. inversion Hs.
Defined.

Lemma length_omap_filter {A B} (f : A -> option B) (l : list A) :
  length (omap f l) = length (filter (fun x => is_Some (f x)) l).
Proof. symmetry. exact (Forall2_length _ _ _ (omap_Forall2 f l)). Qed.

Lemma row_record_is_Some headers tr :
  is_Some (row_record headers tr) <-> find_all tr "td" <> [].
Proof.
  unfold row_record. destruct (find_all tr "td") as [|c cells]; simpl.
  - split; [intros [r Hr]; discriminate|congruence].
  - split; [discriminate|eauto].
Qed.

(** X3: the table branch gives one record for each row that has a data cell
    below it, and none for the other rows. *)
Theorem parse_html_table_count soup table lg :
  find soup "table" = Some table ->
  exists rs,
    (parse_html soup lg).1 = Return rs /\
    length rs =
      length (filter (fun tr => find_all tr "td" <> []) (find_all table "tr")) /\
    length rs <= length (find_all table "tr").
Proof.
  intros Hfind. rewrite (parse_html_table _ _ _ Hfind). eexists.
  split; [reflexivity|].
  rewrite length_omap_filter.
  rewrite (list_filter_iff _ (fun tr => find_all tr "td" <> []))
    by (intros tr; apply row_record_is_Some).
  split; [reflexivity|]. apply length_filter.
Qed.

Lemma parse_html_table_count_witness :
  exists rs,
    (parse_html sample_table []).1 = Return rs /\
    length rs =
      length (filter (fun tr => find_all tr "td" <> [])
                     (find_all sample_rows "tr")) /\
    length rs <= length (find_all sample_rows "tr").
Proof. apply (parse_html_table_count sample_table sample_rows []). reflexivity. Defined.

(** X4: what the log record of a run tells about its output: the number
    logged for list items counts the [li] elements and bounds the number of
    records, the number logged for paragraphs is the number of records,
    and the warning comes with an empty output only. *)
Theorem parse_html_logged_count soup lg :
  exists rs r,
    parse_html soup lg = (Return rs, lg ++ [r]) /\
    match r with
    | info_found_table => find soup "table" <> None
    | info_parsing_li n =>
        find soup "table" = None /\
        n = length (find_all soup "li") /\ 0 < n /\ length rs <= n
    | info_parsing_p n =>
        find soup "table" = None /\ find_all soup "li" = [] /\
        n = length rs /\ 0 < n
    | warning_no_structures =>
        find soup "table" = None /\ find_all soup "li" = [] /\ rs = []
    end.
Proof.
  destruct (find soup "table") as [table|] eqn:Htable; [|
  destruct (find_all soup "li") as [|x lis] eqn:Hli; [
  destruct (paragraph_texts soup) as [|p ps] eqn:Hps|]].
  - do 2 eexists. split; [apply parse_html_table; exact Htable|].
    cbv beta iota. discriminate.
  - do 2 eexists. split; [apply parse_html_nothing; assumption|].
    cbv beta iota. auto.
  - do 2 eexists. split; [apply parse_html_p; congruence|]. cbv beta iota.
    rewrite length_fmap, Hps. simpl. repeat split; lia.
  - do 2 eexists. split; [apply parse_html_li; congruence|]. cbv beta iota.
    rewrite length_omap_filter, Hli. repeat split; [simpl; lia|].
    apply length_filter.
Qed.

Lemma from_pairs_wellformed ps :
  ps <> [] -> from_pairs ps <> [] /\ NoDup (keys (from_pairs ps)).
Proof.
  intros Hne. destruct (foldl_dict_add_keys [] ps) as [Hnd Hel]; [constructor|].
  fold (from_pairs ps) in Hnd, Hel. split; [|exact Hnd].
  destruct ps as [|[k v] ps]; [congruence|]. intros Hnil.
  assert (Hk : k ∈ keys (from_pairs ((k, v) :: ps))) by (apply Hel; right; left).
  rewrite Hnil in Hk. inversion Hk.
Qed.

Lemma row_record_wellformed headers tr r :
  row_record headers tr = Some r -> r <> [] /\ NoDup (keys r).
Proof.
  unfold row_record.
  destruct (get_text "" <$> find_all tr "td") as [|t ts] eqn:Htexts;
    [discriminate|].
  intros [= <-]. case_decide as Hc.
  - apply from_pairs_wellformed. destruct Hc as [Hne _].
    destruct headers; [congruence|discriminate].
  - split; [discriminate|apply NoDup_positional_keys].
Qed.

(** X5: every record returned has a field, and no field name twice; outside
    the table branch it is the single field [text] with a text that is not
    empty. *)
Theorem parse_html_records_wellformed soup lg rs r :
  (parse_html soup lg).1 = Return rs -> r ∈ rs ->
  r <> [] /\ NoDup (keys r) /\
  (find soup "table" = None -> exists v, r = [("text", v)] /\ v <> "").
Proof.
  rewrite parse_html_omap. intros [= <-] Hr.
  apply list_elem_of_omap in Hr as (e & _ & He). unfold record_of in He.
  assert (Htext : forall t, str_bool t = true ->
            text_record t <> [] /\ NoDup (keys (text_record t)) /\
            (find soup "table" = None ->
             exists v, text_record t = [("text", v)] /\ v <> "")).
  { intros t Ht. split; [discriminate|]. split; [apply NoDup_singleton|].
    intros _. exists t. split; [reflexivity|]. apply str_bool_true. exact Ht. }
  destruct (find soup "table") as [table|].
  - destruct (row_record_wellformed _ _ _ He) as [Hne Hnd].
    split; [exact Hne|]. split; [exact Hnd|discriminate].
  - destruct (find_all soup "li") as [|x lis].
    + cbv zeta in He. destruct (str_bool (get_text "" e)) eqn:Hb; [|discriminate].
      injection He as <-. apply Htext. exact Hb.
    + unfold li_record in He.
      destruct (str_bool (get_text " " e)) eqn:Hb; [|discriminate].
      injection He as <-. apply Htext. exact Hb.
Qed.

Lemma parse_html_records_wellformed_witness :
  [("text", "A")] <> [] /\ NoDup (keys [("text", "A")]) /\
  (find sample_list "table" = None ->
   exists v, [("text", "A")] = [("text", v)] /\ v <> "").
Proof.
  apply (parse_html_records_wellformed sample_list []
           [[("text", "A")]; [("text", "B")]; [("text", "A")]]).
  - reflexivity.
  - elem_of_computed.
Defined.

Lemma dict_get_lookup (d : list (string * string)) i k v :
  NoDup d.*1 -> d !! i = Some (k, v) -> dict_get k d = Some v.
Proof.
  revert i. induction d as [|[k' v'] d IH]; intros i Hnd Hi; [discriminate|].
  rewrite fmap_cons in Hnd. apply NoDup_cons in Hnd as [Hk' Hnd].
  cbn [dict_get]. destruct i as [|i].
  - injection Hi as -> ->. rewrite decide_True; reflexivity.
  - simpl in Hi. rewrite decide_False; [exact (IH i Hnd Hi)|].
    intros ->. apply Hk'. apply list_elem_of_fmap.
    exists (k, v). split; [reflexivity|]. apply list_elem_of_lookup. eauto.
Qed.

Lemma dict_get_absent (d : list (string * string)) k : k ∉ d.*1 -> dict_get k d = None.
Proof.
  induction d as [|[k' v'] d IH]; [reflexivity|].
  rewrite fmap_cons, not_elem_of_cons. intros [Hne Hnin]. cbn [dict_get].
  rewrite decide_False by (intros ->; apply Hne; reflexivity).
  exact (IH Hnin).
Qed.

(** X6: a row with positional keys is read back by position: [col_i] is bound
    to the text of cell [i], and to nothing when the row has no such
    cell. *)
Theorem make_row_positional_lookup headers texts :
  ~ (headers <> [] /\ length headers = length texts) ->
  exists row,
    make_row headers texts = Return row /\
    length row = length texts /\
    forall i, dict_get ("col_" +:+ pretty i) row = texts !! i.
Proof.
  intros Hcond. exists (positional texts).
  split; [apply make_row_positional; exact Hcond|].
  split; [unfold positional; apply length_imap|].
  intros i. destruct (texts !! i) as [t|] eqn:Ht.
  - apply (dict_get_lookup _ i); [apply NoDup_positional_keys|].
    unfold positional. rewrite list_lookup_imap, Ht. reflexivity.
  - apply dict_get_absent. intros Hin.
    apply list_elem_of_lookup in Hin as [j Hj].
    unfold positional in Hj. rewrite list_lookup_fmap, list_lookup_imap in Hj.
    destruct (texts !! j) as [t|] eqn:Htj; [|discriminate].
    apply (inj Some) in Hj. cbn [fst] in Hj.
    apply (inj (String.append "col_")), (inj pretty) in Hj. congruence.
Qed.

Lemma make_row_positional_lookup_witness :
  exists row,
    make_row ["Name"] ["Bob"; "DE"] = Return row /\
    length row = 2 /\
    forall i, dict_get ("col_" +:+ pretty i) row = ["Bob"; "DE"] !! i.
Proof.
  apply (make_row_positional_lookup ["Name"] ["Bob"; "DE"]).
  intros [_ Hlen]. discriminate.
Defined.

Lemma find_all_Tag_nil n x : find_all (Tag n []) x = [].
Proof. reflexivity. Qed.

Lemma find_all_Tag_cons n c cs x :
  find_all (Tag n (c :: cs)) x =
  (if has_name x c then [c] else []) ++ find_all c x ++ find_all (Tag n cs) x.
Proof.
  unfold find_all. cbn [descendants]. rewrite bind_cons.
  rewrite <- app_comm_cons, filter_cons, filter_app.
  destruct (has_name x c) eqn:Hc.
  - rewrite decide_True by exact I. reflexivity.
  - rewrite decide_False by (intros []). reflexivity.
Qed.

Lemma find_all_Tag_app n a b x :
  find_all (Tag n (a ++ b)) x = find_all (Tag n a) x ++ find_all (Tag n b) x.
Proof.
  induction a as [|c a IH]; [reflexivity|].
  rewrite <- app_comm_cons, !find_all_Tag_cons, IH, <- !app_assoc.
  reflexivity.
Qed.

(** [parse_html] looks at the document through three searches only. *)
Lemma parse_html_searches s1 s2 lg :
  find_all s1 "table" = find_all s2 "table" ->
  find_all s1 "li" = find_all s2 "li" ->
  find_all s1 "p" = find_all s2 "p" ->
  parse_html s1 lg = parse_html s2 lg.
Proof.
  intros Htable Hli Hp. unfold parse_html, find, paragraph_texts.
  rewrite Htable, Hli, Hp. reflexivity.
Qed.

(** X8: [parse_html] sees the tree only through its elements named
    [table], [li] and [p]: on two trees that differ by one tag of another
    name put around some of the top-level nodes, these nodes being the same
    in both trees, it returns the same records and logs the same record.
    This is about trees; what nodes the parser builds below an element is
    no part of it. *)
Theorem parse_html_wrapper n w a cs b lg :
  w <> "table" -> w <> "li" -> w <> "p" ->
  parse_html (Tag n (a ++ Tag w cs :: b)) lg =
  parse_html (Tag n (a ++ cs ++ b)) lg.
Proof.
  intros Htable Hli Hp.
  assert (Hfind : forall x, w <> x ->
            find_all (Tag n (a ++ Tag w cs :: b)) x =
            find_all (Tag n (a ++ cs ++ b)) x).
  { intros x Hx. rewrite !find_all_Tag_app, find_all_Tag_cons.
    cbn [has_name]. rewrite bool_decide_eq_false_2 by exact Hx.
    reflexivity. }
  apply parse_html_searches; apply Hfind; assumption.
Qed.

Lemma parse_html_wrapper_witness :
  parse_html (document ([] ++ Tag "ul" [li "A"; li "B"] :: [li "C"])) [] =
  parse_html (document ([] ++ [li "A"; li "B"] ++ [li "C"])) [].
Proof.
  apply (parse_html_wrapper "[document]" "ul" [] [li "A"; li "B"] [li "C"] []);
    discriminate.
Defined.

(** X9: the records of two contents put one after the other, when there is no
    table and each of the two has a list item, are the records of the first
    followed by the records of the second. *)
Theorem parse_html_list_append n a b lg :
  find (Tag n (a ++ b)) "table" = None ->
  find_all (Tag n a) "li" <> [] -> find_all (Tag n b) "li" <> [] ->
  exists ra rb,
    (parse_html (Tag n a) lg).1 = Return ra /\
    (parse_html (Tag n b) lg).1 = Return rb /\
    (parse_html (Tag n (a ++ b)) lg).1 = Return (ra ++ rb).
Proof.
  intros Htable Ha Hb.
  assert (Hnil : find_all (Tag n a) "table" = [] /\
                 find_all (Tag n b) "table" = []).
  { apply head_None in Htable. rewrite find_all_Tag_app in Htable.
    apply app_eq_nil in Htable. exact Htable. }
  destruct Hnil as [Hta Htb].
  assert (Hab : find_all (Tag n (a ++ b)) "li" <> []).
  { rewrite find_all_Tag_app. intros H. apply app_eq_nil in H as [H _].
    contradiction. }
  exists (omap li_record (find_all (Tag n a) "li")),
         (omap li_record (find_all (Tag n b) "li")).
  rewrite !parse_html_li; try assumption.
  - rewrite find_all_Tag_app, omap_app. auto.
  - unfold find. rewrite Htb. reflexivity.
  - unfold find. rewrite Hta. reflexivity.
Qed.

Lemma parse_html_list_append_witness :
  exists ra rb,
    (parse_html (document [li "A"]) []).1 = Return ra /\
    (parse_html (document [li "B"; Tag "p" [NavigableString "note"]]) []).1 =
      Return rb /\
    (parse_html
       (document ([li "A"] ++ [li "B"; Tag "p" [NavigableString "note"]]))
       []).1 = Return (ra ++ rb).
Proof.
  apply (parse_html_list_append "[document]" [li "A"]
           [li "B"; Tag "p" [NavigableString "note"]] []).
  - reflexivity.
  - vm_compute. discriminate.
  - vm_compute. discriminate.
Defined.

(** X10: the data cells of a row nested in another row are data cells of the
    outer row too: the nested row is a row of the loop, and the texts of
    its cells stand, as one block, among the texts of the outer row. *)
Theorem nested_row_cells table outer inner :
  outer ∈ find_all table "tr" -> inner ∈ find_all outer "tr" ->
  inner ∈ find_all table "tr" /\
  length (find_all inner "td") <= length (find_all outer "td") /\
  exists before after,
    get_text "" <$> find_all outer "td" =
    before ++ (get_text "" <$> find_all inner "td") ++ after.
Proof.
  intros Houter Hinner.
  apply elem_of_find_all in Houter as [Hout Hout_tr].
  apply elem_of_find_all in Hinner as [Hin Hin_tr].
  destruct (descendants_block _ _ Hin) as (pre & post & Hdesc).
  assert (Htd := find_all_block _ _ "td" _ _ _ Hdesc Hin_tr).
  rewrite Htd by discriminate. split; [|split].
  - apply elem_of_find_all. split; [|exact Hin_tr].
    destruct (descendants_block _ _ Hout) as (pre' & post' & ->).
    rewrite elem_of_app, elem_of_cons, elem_of_app. auto.
  - rewrite !length_app. lia.
  - rewrite !fmap_app. eauto.
Qed.

Lemma nested_row_cells_witness :
  Tag "tr" [td "Al"] ∈ find_all sample_nested "tr" /\
  length (find_all (Tag "tr" [td "Al"]) "td") <= 3 /\
  exists before after,
    ["Alice"; "AliasAl"; "Al"] = before ++ ["Al"] ++ after.
Proof.
  apply (nested_row_cells sample_nested
           (Tag "tr" [td "Alice";
                      Tag "td" [Tag "table" [Tag "tr" [th "Alias"];
                                             Tag "tr" [td "Al"]]]])
           (Tag "tr" [td "Al"])).
  - elem_of_computed.
  - elem_of_computed.
Defined.

Lemma find_all_cells n nm (l : list string) x :
  find_all (Tag n ((fun s => Tag nm [NavigableString s]) <$> l)) x =
  if decide (nm = x) then (fun s => Tag nm [NavigableString s]) <$> l else [].
Proof.
  induction l as [|s l IH]; [destruct (decide (nm = x)); reflexivity|].
  rewrite fmap_cons, find_all_Tag_cons, IH. cbn [has_name].
  change (find_all (Tag nm [NavigableString s]) x) with (@nil node).
  destruct (decide (nm = x)) as [Heq|Hne].
  - rewrite bool_decide_eq_true_2 by exact Heq. reflexivity.
  - rewrite bool_decide_eq_false_2 by exact Hne. reflexivity.
Qed.

Lemma find_all_td_cells n (l : list string) x :
  find_all (Tag n (td <$> l)) x = if decide ("td" = x) then td <$> l else [].
Proof. exact (find_all_cells n "td" l x). Qed.

Lemma find_all_th_cells n (l : list string) x :
  find_all (Tag n (th <$> l)) x = if decide ("th" = x) then th <$> l else [].
Proof. exact (find_all_cells n "th" l x). Qed.

Lemma find_all_data_rows n (rows : list (list string)) x :
  x <> "td" ->
  find_all (Tag n ((fun cells => Tag "tr" (td <$> cells)) <$> rows)) x =
  if decide (x = "tr") then (fun cells => Tag "tr" (td <$> cells)) <$> rows
  else [].
Proof.
  intros Hx. induction rows as [|cells rows IH];
    [destruct (decide (x = "tr")); reflexivity|].
  rewrite fmap_cons, find_all_Tag_cons, IH. cbn [has_name].
  rewrite find_all_td_cells, decide_False by congruence.
  destruct (decide (x = "tr")) as [->|Hne].
  - reflexivity.
  - rewrite bool_decide_eq_false_2 by congruence. reflexivity.
Qed.

Lemma get_text_cells nm (l : list string) :
  get_text "" <$> ((fun s => Tag nm [NavigableString s]) <$> l) = strip <$> l.
Proof.
  rewrite <- list_fmap_compose. apply list_fmap_ext. intros i s _.
  apply get_text_single.
Qed.

Lemma get_text_td_cells (l : list string) :
  get_text "" <$> (td <$> l) = strip <$> l.
Proof. exact (get_text_cells "td" l). Qed.

Lemma get_text_th_cells (l : list string) :
  get_text "" <$> (th <$> l) = strip <$> l.
Proof. exact (get_text_cells "th" l). Qed.

Lemma row_record_data_row headers (cells : list string) :
  headers <> [] -> NoDup headers -> length cells = length headers ->
  row_record headers (Tag "tr" (td <$> cells)) =
  Some (zip headers (strip <$> cells)).
Proof.
  intros Hne Hnd Hlen. unfold row_record.
  rewrite find_all_td_cells, decide_True by reflexivity.
  rewrite get_text_td_cells.
  destruct (strip <$> cells) as [|t ts] eqn:Htexts.
  { apply (f_equal length) in Htexts. rewrite length_fmap, Hlen in Htexts.
    destruct headers; [congruence|discriminate]. }
  assert (Hlen' : length headers = length (t :: ts)).
  { rewrite <- Htexts, length_fmap. congruence. }
  rewrite decide_True by (split; assumption).
  rewrite from_pairs_NoDup; [reflexivity|].
  rewrite fst_zip; [assumption|]. rewrite Hlen'. reflexivity.
Qed.

(** X7: a regular table, found anywhere as the first table of the document:
    with header cells that give distinct names and rows that have as many
    cells as the header, the output has one record per data row, which
    pairs the stripped header texts with the stripped cell texts, in
    column order. *)
Theorem parse_html_regular_table soup hs rows lg :
  find soup "table" = Some (table_of hs rows) ->
  hs <> [] -> NoDup (strip <$> hs) ->
  Forall (fun cells => length cells = length hs) rows ->
  parse_html soup lg =
  (Return ((fun cells => zip (strip <$> hs) (strip <$> cells)) <$> rows),
   lg ++ [info_found_table]).
Proof.
  intros Hfind Hne Hnd Hrows. rewrite (parse_html_table _ _ _ Hfind).
  f_equal. f_equal. unfold table_of.
  rewrite !find_all_Tag_cons. cbn [has_name].
  rewrite !find_all_th_cells.
  rewrite decide_True by reflexivity. rewrite decide_False by discriminate.
  rewrite !find_all_data_rows by discriminate.
  rewrite decide_False by discriminate. rewrite decide_True by reflexivity.
  rewrite bool_decide_eq_false_2 by discriminate.
  rewrite bool_decide_eq_true_2 by reflexivity.
  rewrite !app_nil_l, app_nil_r, get_text_th_cells.
  change ([?x] ++ ?l) with (x :: l).
  assert (Hhdr : row_record (strip <$> hs) (Tag "tr" (th <$> hs)) = None).
  { unfold row_record.
    rewrite find_all_th_cells, decide_False by discriminate.
    reflexivity. }
  match goal with |- omap ?f (?x :: ?l) = _ => omap_step f x l end.
  rewrite Hhdr. clear Hhdr Hfind.
  induction Hrows as [|cells rows Hlen _ IH]; [reflexivity|].
  rewrite !fmap_cons. erewrite omap_cons_Some; [rewrite IH; reflexivity|].
  apply row_record_data_row.
  - destruct hs; [congruence|discriminate].
  - exact Hnd.
  - rewrite length_fmap. exact Hlen.
Qed.

Lemma parse_html_regular_table_witness :
  parse_html
    (document [Tag "div" [table_of ["Name"; " Country "]
                                   [[" Alice "; "FR"]; ["Bob"; "DE"]]];
               Tag "ul" [li "ignored"]]) [] =
  (Return [[("Name", "Alice"); ("Country", "FR")];
           [("Name", "Bob"); ("Country", "DE")]],
   [info_found_table]).
Proof.
  apply (parse_html_regular_table _ ["Name"; " Country "]
           [[" Alice "; "FR"]; ["Bob"; "DE"]] []).
  - reflexivity.
  - discriminate.
  - vm_compute. apply NoDup_cons. split; [|apply NoDup_singleton].
    intros Hin. apply list_elem_of_singleton in Hin. discriminate.
  - repeat constructor.
Defined.









Example rejected_page_is_not_caught :
  main sample_environment (sample_args "https://example.com/odd" 10) =
  (failed ParserRejectedMarkup, [info_fetching "https://example.com/odd"]).
Proof. reflexivity. Qed.
